(** * go-raknet: the connection listener (listener.go)

    A shallow embedding of [Listener] and of its operations: the offline
    packet dispatcher [handle] with its three handlers, the accept
    pipeline [Accept], shutdown [Close], and the pong payload manager
    [PongData] / [HijackPong].

    Conventions.
    - A Go [byte] is a [Byte.byte], a [[]byte] whose capacity plays no
      role is a [list byte]; signed machine integers are [Z] with the
      wrap-around of a conversion written out ([int16]).
    - An [error] is an [option string]: [None] is [nil], [Some msg] holds
      the fixed part of the message given to [fmt.Errorf].
    - The session table ([sync.Map], keyed by [addr.String()]) is a
      [gmap string Conn].
    - Effects on the socket and on sessions are recorded, in program
      order, in the [trace] of the listener state. *)

From Stdlib Require Import ZArith List Bool Lia.
From Stdlib Require Import Strings.Byte.
From stdpp Require Import base option list strings gmap.

Local Open Scope Z_scope.

(** ** Bytes and machine integers *)

Global Instance byte_eq_dec : EqDecision byte := Byte.byte_eq_dec.

(** The byte with value [n mod 256]. *)
Definition byte_of_Z (n : Z) : byte :=
  match Byte.of_N (Z.to_N (n mod 256)) with
  | Some b => b
  | None => x00
  end.

Definition Z_of_byte (b : byte) : Z := Z.of_N (Byte.to_N b).

(** [[]byte("...")]. *)
Definition bytes_of (s : string) : list byte := String.list_byte_of_string s.

(** [len(s)] as a Go [int]. *)
Definition len {A : Type} (s : list A) : Z := Z.of_nat (length s).

(** [math.MaxInt16]. *)
Definition MaxInt16 : Z := 32767.

(** The conversion [int16(z)]: reduction to 16 bits, two's complement. *)
Definition int16 (z : Z) : Z := (z + 32768) mod 65536 - 32768.

(** The conversion [int64(z)]. *)
Definition int64 (z : Z) : Z :=
  (z + 9223372036854775808) mod 18446744073709551616 - 9223372036854775808.

(** [n] bytes, most significant first: what [binary.BigEndian] writes for
    an integer of [n] bytes (two's complement for a negative value). *)
Fixpoint BigEndian_put (n : nat) (z : Z) : list byte :=
  match n with
  | O => []
  | S k => byte_of_Z (Z.shiftr z (8 * Z.of_nat k)) :: BigEndian_put k z
  end.

(** The unsigned value of a big-endian byte string. *)
Definition BigEndian_uint (bs : list byte) : Z :=
  fold_left (fun acc b => acc * 256 + Z_of_byte b) bs 0.

(** ** Outcomes

    A call returns, panics, or blocks on a channel operation. *)

Inductive outcome (A : Type) : Type :=
| Returns (a : A)
| Panics (msg : string)
| Blocks.
Arguments Returns {A} a.
Arguments Panics {A} msg.
Arguments Blocks {A}.

(** ** Package [bytes] and [strconv] *)

(** [bytes.Split(s, []byte{sep})]: the fields of [s] between occurrences
    of [sep]; an empty [s] has one empty field. *)
Fixpoint bytes_Split (s : list byte) (sep : byte) : list (list byte) :=
  match s with
  | [] => [[]]
  | c :: s' =>
      if bool_decide (c = sep) then [] :: bytes_Split s' sep
      else match bytes_Split s' sep with
           | f :: fs => (c :: f) :: fs
           | [] => [[c]]
           end
  end.

(** [bytes.Join(s, sep)]. *)
Fixpoint bytes_Join (s : list (list byte)) (sep : list byte) : list byte :=
  match s with
  | [] => []
  | [f] => f
  | f :: fs => f ++ sep ++ bytes_Join fs sep
  end.

(** The digit loop of [strconv.FormatInt] in base 10: the decimal digits
    of [u], prepended to [acc]. A 64-bit value has at most 20 digits,
    which is the fuel [strconv_Itoa] gives. *)
Fixpoint formatBits (fuel : nat) (u : Z) (acc : list byte) : list byte :=
  match fuel with
  | O => acc
  | S k =>
      let acc' := byte_of_Z (48 + u mod 10) :: acc in
      if u / 10 =? 0 then acc' else formatBits k (u / 10) acc'
  end.

(** [strconv.Itoa(i)]. *)
Definition strconv_Itoa (i : Z) : list byte :=
  if i <? 0 then "-"%byte :: formatBits 20 (- i) [] else formatBits 20 i [].

(** ** Slices with capacity

    A [[]byte] as the run-time has it: [elems] are the [len] bytes of the
    slice, [spare] the bytes of the backing array between [len] and
    [cap]. A slice expression [s[:hi]] is in range when [hi <= cap(s)]:
    it may reach into [spare]. *)

Record slice : Type := mkSlice {
  elems : list byte;
  spare : list byte
}.

Definition cap (s : slice) : Z := len (elems s) + len (spare s).

(** [s[:hi]]: [None] when the bounds check fails (run-time panic). *)
Definition slice_to (s : slice) (hi : nat) : option (list byte) :=
  if bool_decide (Z.of_nat hi <= cap s)
  then Some (take hi (elems s ++ spare s))
  else None.

(** ** Addresses and sessions *)

(** [net.UDPAddr], the dynamic type of every address the UDP socket
    reports. *)
Record UDPAddr : Type := mkUDPAddr {
  IP : list byte;
  Port : Z;
  Zone : string
}.

(** Modelled from the spec: the session handle [Conn] of the reliability
    layer (conn.go), which is not part of listener.go. A handle is made
    by [newConn(socket, remoteAddr, mtu, clientGUID)] and carries the
    remote address, the negotiated MTU and the GUID the peer reported.
    It holds no reference to the listener or to its session table. Its
    two signals (handshake complete, closed) fire in the reliability
    layer; here they are inputs of [Accept] and of [connClosed]. *)
Record Conn : Type := mkConn {
  addr : UDPAddr;
  mtuSize : Z;
  guid : Z
}.

(** [newConn(listener.conn, addr, mtuSize, id)]; the socket is the one
    shared socket of the listener. *)
Definition newConn (a : UDPAddr) (mtu : Z) (clientGUID : Z) : Conn :=
  {| addr := a; mtuSize := mtu; guid := clientGUID |}.

(** ** Offline messages

    The message structs as listener.go uses them: one module per struct,
    with the fields the listener reads or sets. *)

Module unconnectedPing.
Record t : Type := mk { SendTimestamp : Z }.
End unconnectedPing.

Module unconnectedPong.
Record t : Type := mk {
  Magic : list byte;
  ServerGUID : Z;
  SendTimestamp : Z
}.
End unconnectedPong.

Module openConnectionRequest1.
Record t : Type := mk { Protocol : byte }.
End openConnectionRequest1.

Module openConnectionReply1.
Record t : Type := mk {
  Magic : list byte;
  ServerGUID : Z;
  MTUSize : Z
}.
End openConnectionReply1.

Module incompatibleProtocolVersion.
Record t : Type := mk {
  Magic : list byte;
  ServerGUID : Z;
  ServerProtocol : byte
}.
End incompatibleProtocolVersion.

Module openConnectionRequest2.
Record t : Type := mk {
  MTUSize : Z;
  ClientGUID : Z
}.
End openConnectionRequest2.

Module openConnectionReply2.
Record t : Type := mk {
  Magic : list byte;
  ServerGUID : Z;
  ClientAddress : UDPAddr;
  MTUSize : Z
}.
End openConnectionReply2.

(** An [error]: [nil] or a message. *)
Definition error : Type := option string.

(** What listener.go takes from the other files of the package: the
    protocol constants and the wire form of each message. A reader
    ([binary.Read], [UnmarshalBinary]) gives [None] when it returns an
    error. [binary.Write] into a [bytes.Buffer] cannot fail, so a writer
    is a total function; [MarshalBinary] may return an error. *)
Class Package : Type := {
  MinecraftProtocol : byte;
  idUnconnectedPing : byte;
  idUnconnectedPong : byte;
  idOpenConnectionRequest1 : byte;
  idOpenConnectionReply1 : byte;
  idOpenConnectionRequest2 : byte;
  idOpenConnectionReply2 : byte;
  idIncompatibleProtocolVersion : byte;
  bitFlagValid : byte;
  magic : list byte;
  read_unconnectedPing : list byte -> option unconnectedPing.t;
  read_openConnectionRequest1 : list byte -> option openConnectionRequest1.t;
  unmarshal_openConnectionRequest2 : list byte -> option openConnectionRequest2.t;
  write_unconnectedPong : unconnectedPong.t -> list byte;
  write_openConnectionReply1 : openConnectionReply1.t -> list byte;
  write_incompatibleProtocolVersion : incompatibleProtocolVersion.t -> list byte;
  marshal_openConnectionReply2 : openConnectionReply2.t -> option (list byte);
  (** the [case] constants of one [switch] are pairwise distinct *)
  case_ids_distinct :
    NoDup [idUnconnectedPing; idOpenConnectionRequest1; idOpenConnectionRequest2]
}.

(** ** Effects *)

(** What the listener does to the outside, in program order. *)
Inductive Event : Type :=
| EvCancel                                   (* listener.close() *)
| EvWriteTo (b : list byte) (a : UDPAddr)    (* listener.conn.WriteTo(b, a) *)
| EvConnReceive (c : Conn) (b : list byte)   (* c.receive(b) *)
| EvConnClose (c : Conn)                     (* c.Close() *)
| EvSocketClose                              (* listener.conn.Close() *)
| EvErrorLog (msg : string).                 (* listener.ErrorLog.Printf *)

(** The outside: the rendering of an address, and the error each call
    into the socket or into a session returns, which may depend on all
    that happened before. *)
Class Environment : Type := {
  UDPAddr_String : UDPAddr -> string;
  WriteTo_err : list Event -> list byte -> UDPAddr -> error;
  PacketConn_Close_err : list Event -> error;
  Conn_Close_err : list Event -> Conn -> error;
  Conn_receive_err : list Event -> Conn -> list byte -> error
}.

(** ** The listener *)

(** A buffered channel of sessions. *)
Record chan : Type := mkChan {
  buf : list Conn;
  closed : bool
}.

(** The capacity of [incoming]: [make(chan *Conn, 128)]. *)
Definition incoming_cap : Z := 128.

(** The state of a [Listener]. [closeCtx] is [true] once the context is
    cancelled. The socket [conn] and the logger [ErrorLog] are seen
    through [trace]; [watchers] are the sessions for which [Accept] has
    started the goroutine that waits for the session's closed signal. *)
Record Listener : Type := mkListener {
  Protocol : byte;
  incoming : chan;
  connections : gmap string Conn;
  closeCtx : bool;
  id : Z;
  pongData : list byte;
  protocol : byte;
  watchers : list Conn;
  trace : list Event
}.

Definition set_incoming (c : chan) (l : Listener) : Listener :=
  mkListener (Protocol l) c (connections l) (closeCtx l) (id l) (pongData l)
             (protocol l) (watchers l) (trace l).

Definition set_connections (m : gmap string Conn) (l : Listener) : Listener :=
  mkListener (Protocol l) (incoming l) m (closeCtx l) (id l) (pongData l)
             (protocol l) (watchers l) (trace l).

Definition set_closeCtx (b : bool) (l : Listener) : Listener :=
  mkListener (Protocol l) (incoming l) (connections l) b (id l) (pongData l)
             (protocol l) (watchers l) (trace l).

Definition set_pongData (d : list byte) (l : Listener) : Listener :=
  mkListener (Protocol l) (incoming l) (connections l) (closeCtx l) (id l) d
             (protocol l) (watchers l) (trace l).

Definition set_Protocol (p : byte) (l : Listener) : Listener :=
  mkListener p (incoming l) (connections l) (closeCtx l) (id l) (pongData l)
             (protocol l) (watchers l) (trace l).

Definition set_watchers (w : list Conn) (l : Listener) : Listener :=
  mkListener (Protocol l) (incoming l) (connections l) (closeCtx l) (id l)
             (pongData l) (protocol l) w (trace l).

(** Record one more effect. *)
Definition emit (e : Event) (l : Listener) : Listener :=
  mkListener (Protocol l) (incoming l) (connections l) (closeCtx l) (id l)
             (pongData l) (protocol l) (watchers l) (trace l ++ [e]).

Global Instance UDPAddr_eq_dec : EqDecision UDPAddr.
Proof. solve_decision. Defined.

Global Instance Conn_eq_dec : EqDecision Conn.
Proof. solve_decision. Defined.

(** ** The [select] of [Accept]

    What happens around one candidate while [Accept] waits for it:
    whether the listener's context is cancelled within the ten seconds,
    whether the candidate signals the end of its handshake within them,
    and which of the two [select] takes when both are ready. *)
Record selectEnv : Type := mkSelectEnv {
  cancelled : bool;
  completed : bool;
  prefer_cancelled : bool
}.

Inductive selectCase : Type :=
| caseCloseCtxDone             (* <-listener.closeCtx.Done() *)
| caseCompletingSequenceDone   (* <-conn.completingSequence.Done() *)
| caseTimeAfter.               (* <-time.After(time.Second * 10) *)

(** The case [select] runs: a ready channel wins over the timer, and the
    timer fires when neither channel is ready in time. *)
Definition select (ctxDone : bool) (e : selectEnv) : selectCase :=
  let a := ctxDone || cancelled e in
  let b := completed e in
  if a && b then
    (if prefer_cancelled e then caseCloseCtxDone else caseCompletingSequenceDone)
  else if a then caseCloseCtxDone
  else if b then caseCompletingSequenceDone
  else caseTimeAfter.

Section Listener.
Context {pkg : Package} {env : Environment}.

(** [Listen(address)], when the socket could be opened; [rnd] is the
    value [rand.Int63()] returns. *)
Definition Listen (rnd : Z) : Listener :=
  {| Protocol := MinecraftProtocol;
     incoming := mkChan [] false;
     connections := ∅;
     closeCtx := false;
     id := rnd;
     pongData := [];
     protocol := MinecraftProtocol;
     watchers := [];
     trace := [] |}.

(** [listener.conn.WriteTo(b, a)]. *)
Definition conn_WriteTo (l : Listener) (b : list byte) (a : UDPAddr)
  : Listener * error :=
  (emit (EvWriteTo b a) l, WriteTo_err (trace l) b a).

(** *** Accept *)

Definition errListenerClosed : string :=
  "error accepting connection: listener closed".

(** The loop of [Accept] ([goto accept]) over the sessions [q] buffered
    in [incoming]; [sched] says how the [select] on each candidate
    goes. The result is the pair [Accept] returns. *)
Fixpoint accept_from (q : list Conn) (sched : list selectEnv) (l : Listener)
  : Listener * outcome (option Conn * error) :=
  match q with
  | [] =>
      let l0 := set_incoming (mkChan [] (closed (incoming l))) l in
      if closed (incoming l)
      then (l0, Returns (None, Some errListenerClosed))
      else (l0, Blocks)
  | conn :: q' =>
      let l1 := set_incoming (mkChan q' (closed (incoming l))) l in
      match sched with
      | [] => (l1, Blocks)
      | e :: sched' =>
          match select (closeCtx l) e with
          | caseCloseCtxDone => (l1, Returns (None, Some errListenerClosed))
          | caseCompletingSequenceDone =>
              (set_watchers (watchers l1 ++ [conn]) l1, Returns (Some conn, None))
          | caseTimeAfter =>
              accept_from q' sched' (emit (EvConnClose conn) l1)
          end
      end
  end.

Definition Accept (l : Listener) (sched : list selectEnv)
  : Listener * outcome (option Conn * error) :=
  accept_from (buf (incoming l)) sched l.

(** The goroutine [Accept] starts for a session it returns: when the
    session's closed signal fires, it deletes the table entry of the
    session's address. [connClosed c l] is the listener after the signal
    of [c] has fired and every goroutine waiting for it has run. It is
    the step of those goroutines, so it is to be applied once [Accept]
    has started them: for a signal that fires earlier, the goroutine
    finds it fired when it starts, which is [Accept] followed by
    [connClosed]; a signal for which no goroutine waits deletes
    nothing. *)
Definition connClosed (c : Conn) (l : Listener) : Listener :=
  if bool_decide (c ∈ watchers l)
  then set_watchers (filter (λ w, w ≠ c) (watchers l))
         (set_connections (delete (UDPAddr_String (addr c)) (connections l)) l)
  else l.

(** *** Close *)

(** The function given to [connections.Range]: one session, with the
    [err] variable of [Close] threaded through. *)
Definition Close_visit (st : Listener * error) (kv : string * Conn)
  : Listener * error :=
  let '(l, err) := st in
  let conn := kv.2 in
  let closeErr := Conn_Close_err (trace l) conn in
  let l' := emit (EvConnClose conn) l in
  match err with
  | Some _ =>
      (l', Some ("error closing conn: " +:+ default "<nil>" closeErr)%string)
  | None => (l', err)
  end.

Definition Close (l : Listener) : Listener * error :=
  let l0 := emit EvCancel (set_closeCtx true l) in
  let '(l1, err) := fold_left Close_visit (map_to_list (connections l0)) (l0, None) in
  match err with
  | Some e => (l1, Some e)
  | None =>
      let l2 := emit EvSocketClose l1 in
      match PacketConn_Close_err (trace l1) with
      | Some _ => (l2, Some "error closing UDP listener"%string)
      | None => (l2, None)
      end
  end.

(** *** Pong data *)

Definition PongData (l : Listener) (data : list byte) : Listener * outcome unit :=
  if len data >? MaxInt16
  then (l, Panics "error setting pong data: pong data must not be longer than 32767")
  else (set_pongData data l, Returns tt).

(** [for len(fragments) < 9 { fragments = append(fragments, nil) }];
    nine rounds are enough for any slice. *)
Fixpoint pad_fragments (fuel : nat) (fragments : list (list byte))
  : list (list byte) :=
  match fuel with
  | O => fragments
  | S k =>
      if bool_decide (length fragments < 9)%nat
      then pad_fragments k (fragments ++ [[]])
      else fragments
  end.

(** [int(listener.id)], with the 64-bit [int] of the usual platforms. *)
Definition to_int (z : Z) : Z := int64 z.

(** One round of the goroutine of [HijackPong], in the case
    [<-ticker.C]. [ping] is what [Dialer{Protocol: p}.Ping(address)]
    returns for a dialer protocol [p]: [None] for an error, else the
    pong payload of the remote server. *)
Definition HijackPong_tick (l : Listener) (ping : byte -> option slice)
  : Listener * outcome unit :=
  match ping (Protocol l) with
  | None => (l, Returns tt)
  | Some data =>
      match slice_to data 4 with
      | None => (l, Panics "slice bounds out of range")
      | Some head =>
          if bool_decide (head = bytes_of "MCPE") then
            let fragments := bytes_Split (elems data) ";"%byte in
            let fragments := pad_fragments 9 fragments in
            let fragments := take 9 fragments in
            let fragments := <[6%nat := strconv_Itoa (to_int (id l))]> fragments in
            let fragments := <[7%nat := bytes_of "Proxy"]> fragments in
            let fragments := <[8%nat := []]> fragments in
            PongData l (bytes_Join fragments [";"%byte])
          else PongData l (elems data)
      end
  end.

(** What the goroutine of [HijackPong] receives in its [select]: a tick,
    with what the ping of that round returns, or the cancellation of the
    listener's context. *)
Inductive hijackEvent : Type :=
| tickerC (ping : byte -> option slice)
| hijackCtxDone.

(** The goroutine of [HijackPong] over the events it receives. It ends
    when the context is cancelled or a round panics, and waits when
    there is no event. *)
Fixpoint HijackPong_loop (l : Listener) (evs : list hijackEvent)
  : Listener * outcome unit :=
  match evs with
  | [] => (l, Blocks)
  | hijackCtxDone :: _ => (l, Returns tt)
  | tickerC ping :: evs' =>
      match HijackPong_tick l ping with
      | (l', Returns _) => HijackPong_loop l' evs'
      | (l', Panics msg) => (l', Panics msg)
      | (l', Blocks) => (l', Blocks)
      end
  end.

(** [HijackPong(address)]: an error when the address does not resolve,
    else the goroutine is started. *)
Definition HijackPong (resolved : bool) : error :=
  if resolved then None else Some "error resolving UDP address"%string.

(** *** The handlers of offline messages

    [b] holds the bytes that follow the packet ID. [b.WriteByte] and
    [binary.Write] on a [bytes.Buffer] return no error, so the handlers
    have no branch for them. *)

Definition handleUnconnectedPing (l : Listener) (b : list byte) (a : UDPAddr)
  : Listener * outcome error :=
  match read_unconnectedPing b with
  | None => (l, Returns (Some "error reading unconnected ping"%string))
  | Some packet =>
      let pongData := pongData l in
      let response :=
        {| unconnectedPong.Magic := magic;
           unconnectedPong.ServerGUID := id l;
           unconnectedPong.SendTimestamp := unconnectedPing.SendTimestamp packet |} in
      let out := idUnconnectedPong :: write_unconnectedPong response in
      let out :=
        if bool_decide (protocol l = MinecraftProtocol)
        then out ++ BigEndian_put 2 (int16 (len pongData))
        else out in
      let out := out ++ pongData in
      match conn_WriteTo l out a with
      | (l', Some _) => (l', Returns (Some "error sending unconnected pong"%string))
      | (l', None) => (l', Returns None)
      end
  end.

Definition handleOpenConnectionRequest1 (l : Listener) (b : list byte) (a : UDPAddr)
  : Listener * outcome error :=
  let mtuSize := len b + 1 in
  match read_openConnectionRequest1 b with
  | None => (l, Returns (Some "error reading open connection request 1"%string))
  | Some packet =>
      if bool_decide (openConnectionRequest1.Protocol packet ≠ protocol l) then
        let response :=
          {| incompatibleProtocolVersion.Magic := magic;
             incompatibleProtocolVersion.ServerGUID := id l;
             incompatibleProtocolVersion.ServerProtocol := protocol l |} in
        let out := idIncompatibleProtocolVersion
                     :: write_incompatibleProtocolVersion response in
        match conn_WriteTo l out a with
        | (l', Some _) =>
            (l', Returns (Some "error sending incompatible protocol version"%string))
        | (l', None) =>
            (l', Returns (Some "error handling open connection request 1: incompatible protocol version"%string))
        end
      else
        let response :=
          {| openConnectionReply1.Magic := magic;
             openConnectionReply1.ServerGUID := id l;
             openConnectionReply1.MTUSize := int16 (int16 mtuSize + 28) |} in
        let out := idOpenConnectionReply1 :: write_openConnectionReply1 response in
        match conn_WriteTo l out a with
        | (l', Some _) =>
            (l', Returns (Some "error sending open connection reply 1"%string))
        | (l', None) => (l', Returns None)
        end
  end.

(** [listener.incoming <- conn]: a send on a closed channel panics, a
    send on a full one blocks. *)
Definition incoming_send (l : Listener) (conn : Conn) : Listener * outcome error :=
  if closed (incoming l) then (l, Panics "send on closed channel")
  else if len (buf (incoming l)) <? incoming_cap
  then (set_incoming (mkChan (buf (incoming l) ++ [conn]) false) l, Returns None)
  else (l, Blocks).

Definition handleOpenConnectionRequest2 (l : Listener) (b : list byte) (a : UDPAddr)
  : Listener * outcome error :=
  match unmarshal_openConnectionRequest2 b with
  | None => (l, Returns (Some "error reading open connection request 2"%string))
  | Some packet =>
      let response :=
        {| openConnectionReply2.Magic := magic;
           openConnectionReply2.ServerGUID := id l;
           openConnectionReply2.ClientAddress := a;
           openConnectionReply2.MTUSize := openConnectionRequest2.MTUSize packet |} in
      match marshal_openConnectionReply2 response with
      | None => (l, Returns (Some "error writing open connection reply 2"%string))
      | Some data =>
          match conn_WriteTo l (idOpenConnectionReply2 :: data) a with
          | (l', Some _) =>
              (l', Returns (Some "error sending open connection reply 2"%string))
          | (l', None) =>
              let conn := newConn a (openConnectionRequest2.MTUSize packet)
                                  (openConnectionRequest2.ClientGUID packet) in
              let l'' := set_connections
                           (<[UDPAddr_String a := conn]> (connections l')) l' in
              incoming_send l'' conn
          end
      end
  end.

(** *** The dispatcher *)

Definition handle (l : Listener) (b : list byte) (a : UDPAddr)
  : Listener * outcome error :=
  match connections l !! UDPAddr_String a with
  | None =>
      match b with
      | [] => (l, Returns (Some "error reading packet ID byte"%string))
      | packetID :: b' =>
          if bool_decide (packetID = idUnconnectedPing)
          then handleUnconnectedPing l b' a
          else if bool_decide (packetID = idOpenConnectionRequest1)
          then handleOpenConnectionRequest1 l b' a
          else if bool_decide (packetID = idOpenConnectionRequest2)
          then handleOpenConnectionRequest2 l b' a
          else if Z.land (Z_of_byte packetID) (Z_of_byte bitFlagValid) =? 0
          then (l, Returns (Some "unknown packet received"%string))
          else (l, Returns None)
      end
  | Some conn =>
      (emit (EvConnReceive conn b) l, Returns (Conn_receive_err (trace l) conn b))
  end.

(** One round of the loop of [listen]. [rd] is what
    [listener.conn.ReadFrom(b)] gives: [None] for an error, else a
    datagram, of which the 1500 bytes of the read buffer hold the
    beginning, and its sender. The result says whether the loop goes
    on. *)
Definition listen_round (l : Listener) (rd : option (list byte * UDPAddr))
  : Listener * outcome bool :=
  match rd with
  | None => (set_incoming (mkChan (buf (incoming l)) true) l, Returns false)
  | Some (d, a) =>
      let buffer := take 1500 d in
      match handle l buffer a with
      | (l', Returns (Some err)) => (emit (EvErrorLog err) l', Returns true)
      | (l', Returns None) => (l', Returns true)
      | (l', Panics msg) => (l', Panics msg)
      | (l', Blocks) => (l', Blocks)
      end
  end.

End Listener.

(** ** The remaining functions of listener.go *)

(** [listener.ID()]. *)
Definition ID (l : Listener) : Z := id l.

(** [timestamp()]: [time.Now().UnixNano() / int64(time.Second)], for the
    value [unixNano] of the clock. The division of Go truncates toward
    zero; [time.Second] is 1000000000. *)
Definition timestamp (unixNano : Z) : Z := Z.quot unixNano 1000000000.

(** ** The life of a listener

    What happens to a listener once [Listen] has returned it: the read
    loop handles what the socket gives, the application configures the
    exported field [Protocol], sets the pong payload, accepts and closes,
    the updater of [HijackPong] ticks, and the closed signal of a session
    fires. *)
Inductive op : Type :=
| opListenRound (rd : option (list byte * UDPAddr))
| opSetProtocol (p : byte)
| opPongData (data : list byte)
| opHijackTick (ping : byte -> option slice)
| opAccept (sched : list selectEnv)
| opConnClosed (c : Conn)
| opClose.

(** Whether a call has returned. *)
Definition returned {A : Type} (o : outcome A) : bool :=
  match o with
  | Returns _ => true
  | Panics _ => false
  | Blocks => false
  end.

Section Life.
Context {pkg : Package} {env : Environment}.

(** One operation: the state it leaves and whether it returned. *)
Definition step (l : Listener) (o : op) : Listener * bool :=
  match o with
  | opListenRound rd => let r := listen_round l rd in (r.1, returned r.2)
  | opSetProtocol p => (set_Protocol p l, true)
  | opPongData data => let r := PongData l data in (r.1, returned r.2)
  | opHijackTick ping => let r := HijackPong_tick l ping in (r.1, returned r.2)
  | opAccept sched => let r := Accept l sched in (r.1, returned r.2)
  | opConnClosed c => (connClosed c l, true)
  | opClose => ((Close l).1, true)
  end.

(** A sequence of operations, up to the first that panics or blocks. *)
Fixpoint run (l : Listener) (ops : list op) : Listener :=
  match ops with
  | [] => l
  | o :: ops' =>
      let '(l', ok) := step l o in
      if ok then run l' ops' else l'
  end.

End Life.

(** ** A package and an environment to run the listener on

    The theorems below hold for every [Package] and [Environment]. To run
    the listener on concrete datagrams, this module fixes one of each. *)
Module RakNet.

Definition int64_of_bytes (bs : list byte) : Z := int64 (BigEndian_uint bs).
Definition int16_of_bytes (bs : list byte) : Z := int16 (BigEndian_uint bs).

(** The 16 bytes every offline message carries. *)
Definition magic_bytes : list byte :=
  [x00; xff; xff; x00; xfe; xfe; xfe; xfe; xfd; xfd; xfd; xfd; x12; x34; x56; x78].

(** An address on the wire: the IP version, the four bytes of an IPv4
    address and the port. Other addresses are not encoded. *)
Definition put_address (a : UDPAddr) : option (list byte) :=
  if bool_decide (length (IP a) = 4%nat)
  then Some (x04 :: IP a ++ BigEndian_put 2 (Port a))
  else None.

(** Modelled from the spec: the struct declarations of the offline
    messages, which are in another file of the package. The order of
    the fields on the wire is the one of the spec's wire layout:
    Ping [{client-send-timestamp}]. *)
Definition get_unconnectedPing (b : list byte) : option unconnectedPing.t :=
  if bool_decide (8 <= length b)%nat
  then Some (unconnectedPing.mk (int64_of_bytes (take 8 b)))
  else None.

(** Modelled from the spec: Pong [{server-GUID, echoed-timestamp}]; the
    magic_bytes, which the listener sets and the layout does not place, comes
    last; the length and the payload are appended by the handler. *)
Definition put_unconnectedPong (p : unconnectedPong.t) : list byte :=
  BigEndian_put 8 (unconnectedPong.ServerGUID p)
    ++ BigEndian_put 8 (unconnectedPong.SendTimestamp p)
    ++ unconnectedPong.Magic p.

(** Modelled from the spec: OpenConnectionRequest1
    [{16-byte magic_bytes, protocol-version byte, MTU-padding}]. *)
Definition get_openConnectionRequest1 (b : list byte)
  : option openConnectionRequest1.t :=
  match drop 16 b with
  | p :: _ => Some (openConnectionRequest1.mk p)
  | [] => None
  end.

(** Modelled from the spec: OpenConnectionReply1
    [{magic_bytes, server-GUID, requires-security flag, negotiated-MTU (int16)}]. *)
Definition put_openConnectionReply1 (p : openConnectionReply1.t) : list byte :=
  openConnectionReply1.Magic p
    ++ BigEndian_put 8 (openConnectionReply1.ServerGUID p)
    ++ [x00]
    ++ BigEndian_put 2 (openConnectionReply1.MTUSize p).

(** Modelled from the spec: IncompatibleProtocolVersion
    [{magic_bytes, server-GUID, server's-accepted-protocol-version}]. *)
Definition put_incompatibleProtocolVersion (p : incompatibleProtocolVersion.t)
  : list byte :=
  incompatibleProtocolVersion.Magic p
    ++ BigEndian_put 8 (incompatibleProtocolVersion.ServerGUID p)
    ++ [incompatibleProtocolVersion.ServerProtocol p].

(** Modelled from the spec: OpenConnectionRequest2
    [{magic_bytes, server-bound-address, requested-MTU, client-GUID}]. *)
Definition get_openConnectionRequest2 (b : list byte)
  : option openConnectionRequest2.t :=
  if bool_decide (33 <= length b)%nat
  then Some (openConnectionRequest2.mk
               (int16_of_bytes (take 2 (drop 23 b)))
               (int64_of_bytes (take 8 (drop 25 b))))
  else None.

(** Modelled from the spec: OpenConnectionReply2
    [{magic_bytes, server-GUID, client-observed-address, negotiated-MTU,
      encryption-enabled flag}]. *)
Definition put_openConnectionReply2 (p : openConnectionReply2.t)
  : option (list byte) :=
  match put_address (openConnectionReply2.ClientAddress p) with
  | Some a =>
      Some (openConnectionReply2.Magic p
              ++ BigEndian_put 8 (openConnectionReply2.ServerGUID p)
              ++ a
              ++ BigEndian_put 2 (openConnectionReply2.MTUSize p)
              ++ [x00])
  | None => None
  end.


(** The packet IDs, the validity flag and the protocol version are
    those of the RakNet protocol. *)
Definition package : Package :=
  {| MinecraftProtocol := x09;
     idUnconnectedPing := x01;
     idUnconnectedPong := x1c;
     idOpenConnectionRequest1 := x05;
     idOpenConnectionReply1 := x06;
     idOpenConnectionRequest2 := x07;
     idOpenConnectionReply2 := x08;
     idIncompatibleProtocolVersion := x19;
     bitFlagValid := x80;
     magic := magic_bytes;
     read_unconnectedPing := get_unconnectedPing;
     read_openConnectionRequest1 := get_openConnectionRequest1;
     unmarshal_openConnectionRequest2 := get_openConnectionRequest2;
     write_unconnectedPong := put_unconnectedPong;
     write_openConnectionReply1 := put_openConnectionReply1;
     write_incompatibleProtocolVersion := put_incompatibleProtocolVersion;
     marshal_openConnectionReply2 := put_openConnectionReply2;
     case_ids_distinct := bool_decide_unpack (NoDup [x01; x05; x07]) I |}.

(** [a.String()] for an IPv4 address: dotted decimal, colon, port. *)
Definition address_string (a : UDPAddr) : string :=
  String.string_of_list_byte
    (bytes_Join (map (λ b, strconv_Itoa (Z_of_byte b)) (IP a)) ["."%byte]
       ++ ":"%byte :: strconv_Itoa (Port a)).

(** An environment in which no call fails. *)
Definition quiet : Environment :=
  {| UDPAddr_String := address_string;
     WriteTo_err := λ _ _ _, None;
     PacketConn_Close_err := λ _, None;
     Conn_Close_err := λ _ _, None;
     Conn_receive_err := λ _ _ _, None |}.

(** An environment in which closing a session always fails. *)
Definition failing_sessions : Environment :=
  {| UDPAddr_String := address_string;
     WriteTo_err := λ _ _ _, None;
     PacketConn_Close_err := λ _, None;
     Conn_Close_err := λ _ _, Some "use of closed network connection"%string;
     Conn_receive_err := λ _ _ _, None |}.

(** A client. *)
Definition client : UDPAddr :=
  {| IP := [xc0; xa8; x00; x02]; Port := 19132; Zone := "" |}.

(** An OpenConnectionRequest1 of 18 bytes for protocol [v]: the packet
    ID, the magic_bytes and the version. *)
Definition request1 (v : byte) : list byte := x05 :: magic_bytes ++ [v].

(** An OpenConnectionRequest2 for an MTU of 1492 and a client GUID. *)
Definition request2 : list byte :=
  x07 :: magic_bytes ++ [x04; x7f; x00; x00; x01; x4a; xbc]
      ++ BigEndian_put 2 1492 ++ BigEndian_put 8 77.

(** A Ping with a send timestamp. *)
Definition ping (t : Z) : list byte := x01 :: BigEndian_put 8 t.


(** A listener with one session, the one of [client]. *)
Definition one_session : Listener :=
  (handle (pkg := package) (env := quiet) (Listen (pkg := package) 42) request2 client).1.

Definition client_session : Conn := newConn client 1492 77.

(** A second client and a listener with the sessions of both, the one of
    [client] first in the queue. *)
Definition client2 : UDPAddr :=
  {| IP := [xc0; xa8; x00; x03]; Port := 19132; Zone := "" |}.

Definition client2_session : Conn := newConn client2 1492 77.

Definition two_sessions : Listener :=
  (handle (pkg := package) (env := quiet) one_session request2 client2).1.

(** The pong payload of an upstream server, as [Ping] returns it. *)
Definition upstream : slice :=
  {| elems := bytes_of "MCPE;Dedicated Server;390;1.14.60;0;10;13253860892328930865;Bedrock level;Survival;1;19132;19133;";
     spare := [] |}.

(** An environment in which the socket writes nothing. *)
Definition write_fails : Environment :=
  {| UDPAddr_String := address_string;
     WriteTo_err := λ _ _ _, Some "network is unreachable"%string;
     PacketConn_Close_err := λ _, None;
     Conn_Close_err := λ _ _, None;
     Conn_receive_err := λ _ _ _, None |}.

(** The peers of one host, by port, and a listener whose queue holds the
    sessions of 128 of them. *)
Definition peer (port : nat) : UDPAddr :=
  {| IP := [x0a; x00; x00; x01]; Port := Z.of_nat port; Zone := "" |}.

Definition full_queue : Listener :=
  fold_left (λ l port, (handle (pkg := package) (env := quiet) l request2 (peer port)).1)
    (seq 1 128) (Listen (pkg := package) 42).

(** A Request1 of 2018 bytes: the packet ID, the magic, the version and
    2000 bytes of padding. *)
Definition long_request1 : list byte :=
  x05 :: magic_bytes ++ [x09] ++ replicate 2000 x00.

End RakNet.

(** ** Notions used in the statements *)

(** The value a string of decimal digits denotes. *)
Definition decimal_value (ds : list byte) : Z :=
  fold_left (λ acc b, acc * 10 + (Z_of_byte b - 48)) ds 0.

(** The payload the updater stores for a descriptor [s] and the listener
    ID [i]. *)
Definition rewritten (s : list byte) (i : Z) : list byte :=
  bytes_Join
    (take 6 (bytes_Split s ";"%byte
               ++ replicate (9 - length (bytes_Split s ";"%byte)) [])
       ++ [strconv_Itoa (to_int i); bytes_of "Proxy"; []])
    [";"%byte].

(** The fields that neither the read loop nor [Accept] writes. *)
Definition same_config (l l' : Listener) : Prop :=
  Protocol l' = Protocol l ∧ id l' = id l ∧ protocol l' = protocol l
  ∧ pongData l' = pongData l ∧ closeCtx l' = closeCtx l.

(** Every session waiting in [incoming] is in the table, under its
    address. *)
Definition queue_registered {env : Environment} (l : Listener) : Prop :=
  ∀ c : Conn, c ∈ buf (incoming l) ->
    connections l !! UDPAddr_String (addr c) = Some c.

(** What holds of a listener that [Listen] has made with the ID [rnd],
    all along its life: its ID and the protocol it compares with are the
    ones of [Listen], the pong payload fits the limit, no session is
    twice in the queue, the queued sessions are registered, and the
    sessions whose end a goroutine waits for are registered and out of
    the queue. *)
Definition well_formed {pkg : Package} {env : Environment} (rnd : Z) (l : Listener)
  : Prop :=
  id l = rnd
  ∧ protocol l = MinecraftProtocol
  ∧ len (pongData l) <= MaxInt16
  ∧ NoDup (buf (incoming l))
  ∧ queue_registered l
  ∧ (∀ c : Conn, c ∈ watchers l ->
       connections l !! UDPAddr_String (addr c) = Some c
       ∧ c ∉ buf (incoming l)).

(** Decide a closed proposition by evaluation. *)
Ltac evaluate P := apply (bool_decide_unpack P); vm_compute; exact I.

(** * Properties *)

(** ** Integers and lengths *)

Lemma int16_small (z : Z) : -32768 <= z <= 32767 -> int16 z = z.
Proof.
  intros Hz. unfold int16.
  rewrite Z.mod_small by lia. lia.
Qed.

Lemma len_nonneg {A : Type} (s : list A) : 0 <= len s.
Proof. unfold len. lia. Qed.

Lemma len_cons {A : Type} (x : A) (s : list A) : len (x :: s) = len s + 1.
Proof. unfold len. simpl. lia. Qed.

Lemma len_app {A : Type} (s t : list A) : len (s ++ t) = len s + len t.
Proof. unfold len. rewrite length_app. lia. Qed.

(** ** The state after an effect *)

Lemma connections_emit (e : Event) (l : Listener) :
  connections (emit e l) = connections l.
Proof. reflexivity. Qed.

Lemma incoming_emit (e : Event) (l : Listener) :
  incoming (emit e l) = incoming l.
Proof. reflexivity. Qed.

Section Dispatch.
Context {pkg : Package} {env : Environment}.

Lemma case_ids_ne :
  idUnconnectedPing ≠ idOpenConnectionRequest1
  ∧ idUnconnectedPing ≠ idOpenConnectionRequest2
  ∧ idOpenConnectionRequest1 ≠ idOpenConnectionRequest2.
Proof.
  pose proof case_ids_distinct as Hd.
  apply NoDup_cons in Hd as [H1 Hd].
  apply NoDup_cons in Hd as [H2 _].
  rewrite !elem_of_cons in H1. rewrite elem_of_cons in H2.
  repeat split; intros E; [apply H1 | apply H1 | apply H2]; auto.
Qed.

(** The dispatcher on a datagram of an address without a session. *)
Lemma handle_ping (l : Listener) (b : list byte) (a : UDPAddr) :
  connections l !! UDPAddr_String a = None ->
  handle l (idUnconnectedPing :: b) a = handleUnconnectedPing l b a.
Proof.
  intros Hnone. unfold handle. rewrite Hnone.
  rewrite bool_decide_eq_true_2; reflexivity.
Qed.

Lemma handle_request1 (l : Listener) (b : list byte) (a : UDPAddr) :
  connections l !! UDPAddr_String a = None ->
  handle l (idOpenConnectionRequest1 :: b) a = handleOpenConnectionRequest1 l b a.
Proof.
  intros Hnone. unfold handle. rewrite Hnone.
  destruct case_ids_ne as (Hne & _ & _).
  rewrite bool_decide_eq_false_2 by congruence.
  rewrite bool_decide_eq_true_2; reflexivity.
Qed.

Lemma handle_request2 (l : Listener) (b : list byte) (a : UDPAddr) :
  connections l !! UDPAddr_String a = None ->
  handle l (idOpenConnectionRequest2 :: b) a = handleOpenConnectionRequest2 l b a.
Proof.
  intros Hnone. unfold handle. rewrite Hnone.
  destruct case_ids_ne as (_ & Hne1 & Hne2).
  rewrite bool_decide_eq_false_2 by congruence.
  rewrite bool_decide_eq_false_2 by congruence.
  rewrite bool_decide_eq_true_2; reflexivity.
Qed.

(** A Request1 for the protocol in [protocol l] is answered by a Reply1
    whose MTU is the conversion the handler computes. *)
Lemma handleOpenConnectionRequest1_accepts
    (l : Listener) (b : list byte) (a : UDPAddr) (packet : openConnectionRequest1.t) :
  read_openConnectionRequest1 b = Some packet ->
  openConnectionRequest1.Protocol packet = protocol l ->
  let out := idOpenConnectionReply1
               :: write_openConnectionReply1
                    {| openConnectionReply1.Magic := magic;
                       openConnectionReply1.ServerGUID := id l;
                       openConnectionReply1.MTUSize := int16 (int16 (len b + 1) + 28) |} in
  handleOpenConnectionRequest1 l b a
  = (emit (EvWriteTo out a) l,
     Returns ((λ _, "error sending open connection reply 1"%string)
                <$> WriteTo_err (trace l) out a)).
Proof.
  intros Hread Hproto. unfold handleOpenConnectionRequest1.
  rewrite Hread. rewrite bool_decide_eq_false_2 by (intros Hne; exact (Hne Hproto)).
  unfold conn_WriteTo. cbv zeta.
  destruct (WriteTo_err _ _ _); reflexivity.
Qed.

(** A Request1 for any other protocol is answered by
    IncompatibleProtocolVersion and an error is returned. *)
Lemma handleOpenConnectionRequest1_rejects
    (l : Listener) (b : list byte) (a : UDPAddr) (packet : openConnectionRequest1.t) :
  read_openConnectionRequest1 b = Some packet ->
  openConnectionRequest1.Protocol packet ≠ protocol l ->
  let out := idIncompatibleProtocolVersion
               :: write_incompatibleProtocolVersion
                    {| incompatibleProtocolVersion.Magic := magic;
                       incompatibleProtocolVersion.ServerGUID := id l;
                       incompatibleProtocolVersion.ServerProtocol := protocol l |} in
  ∃ msg : string,
    handleOpenConnectionRequest1 l b a = (emit (EvWriteTo out a) l, Returns (Some msg)).
Proof.
  intros Hread Hproto. unfold handleOpenConnectionRequest1.
  rewrite Hread. rewrite bool_decide_eq_true_2 by exact Hproto.
  unfold conn_WriteTo. cbv zeta.
  destruct (WriteTo_err _ _ _); eexists; reflexivity.
Qed.

(** C1 (amended). A Request1 datagram [d] of at most 1500 bytes (the read
    buffer of [listen]) from an address without a session, for the
    protocol the listener compares with, is answered by a Reply1 whose
    MTU is the length of the whole datagram, packet ID included, plus 28:
    the handler counts the bytes after the packet ID and adds 1 for the
    ID. *)
Theorem request1_reply_mtu
    (l : Listener) (d b : list byte) (a : UDPAddr) (packet : openConnectionRequest1.t) :
  connections l !! UDPAddr_String a = None ->
  d = idOpenConnectionRequest1 :: b ->
  len d <= 1500 ->
  read_openConnectionRequest1 b = Some packet ->
  openConnectionRequest1.Protocol packet = protocol l ->
  let out := idOpenConnectionReply1
               :: write_openConnectionReply1
                    {| openConnectionReply1.Magic := magic;
                       openConnectionReply1.ServerGUID := id l;
                       openConnectionReply1.MTUSize := len d + 28 |} in
  handle l d a
  = (emit (EvWriteTo out a) l,
     Returns ((λ _, "error sending open connection reply 1"%string)
                <$> WriteTo_err (trace l) out a))
  ∧ len d + 28 = len b + 1 + 28.
Proof.
  intros Hnone -> Hlen Hread Hproto out.
  rewrite handle_request1 by exact Hnone.
  rewrite (handleOpenConnectionRequest1_accepts l b a packet Hread Hproto).
  cbv zeta. subst out. rewrite len_cons in *.
  pose proof (len_nonneg b) as Hb.
  rewrite (int16_small (len b + 1)) by lia.
  rewrite (int16_small (len b + 1 + 28)) by lia.
  split; reflexivity.
Qed.

(** C3 (the code at the failing input). The handshake compares the
    requested version with the unexported field [protocol], which [Listen]
    sets to [MinecraftProtocol] and nothing in the listener changes; the
    exported field [Protocol], which the application configures, is not
    read. So after the application has configured a version [v] other
    than [MinecraftProtocol], a Request1 for [v] is answered by
    IncompatibleProtocolVersion (advertising [MinecraftProtocol]), and a
    Request1 for [MinecraftProtocol] is answered by a Reply1. Neither
    touches the session table. *)
Theorem configured_Protocol_not_compared
    (rnd : Z) (v : byte) (b b' : list byte) (a : UDPAddr)
    (packet packet' : openConnectionRequest1.t) :
  v ≠ MinecraftProtocol ->
  read_openConnectionRequest1 b = Some packet ->
  openConnectionRequest1.Protocol packet = v ->
  read_openConnectionRequest1 b' = Some packet' ->
  openConnectionRequest1.Protocol packet' = MinecraftProtocol ->
  let l := set_Protocol v (Listen rnd) in
  let incompatible :=
    idIncompatibleProtocolVersion
      :: write_incompatibleProtocolVersion
           {| incompatibleProtocolVersion.Magic := magic;
              incompatibleProtocolVersion.ServerGUID := rnd;
              incompatibleProtocolVersion.ServerProtocol := MinecraftProtocol |} in
  let reply1 :=
    idOpenConnectionReply1
      :: write_openConnectionReply1
           {| openConnectionReply1.Magic := magic;
              openConnectionReply1.ServerGUID := rnd;
              openConnectionReply1.MTUSize := int16 (int16 (len b' + 1) + 28) |} in
  Protocol l = v
  ∧ (∃ msg : string,
       handle l (idOpenConnectionRequest1 :: b) a
       = (emit (EvWriteTo incompatible a) l, Returns (Some msg)))
  ∧ handle l (idOpenConnectionRequest1 :: b') a
    = (emit (EvWriteTo reply1 a) l,
       Returns ((λ _, "error sending open connection reply 1"%string)
                  <$> WriteTo_err (trace l) reply1 a)).
Proof.
  intros Hv Hread Hp Hread' Hp' l incompatible reply1.
  assert (Hnone : connections l !! UDPAddr_String a = None) by apply lookup_empty.
  split; [reflexivity |]. split.
  - rewrite handle_request1 by exact Hnone.
    apply (handleOpenConnectionRequest1_rejects l b a packet Hread).
    rewrite Hp. exact Hv.
  - rewrite handle_request1 by exact Hnone.
    apply (handleOpenConnectionRequest1_accepts l b' a packet' Hread').
    exact Hp'.
Qed.

(** The rejection as the code has it: whatever the requested version, a
    Request1 leaves the session table and the queue as they are. *)
Lemma handleOpenConnectionRequest1_no_session
    (l : Listener) (b : list byte) (a : UDPAddr) :
  connections (handleOpenConnectionRequest1 l b a).1 = connections l
  ∧ incoming (handleOpenConnectionRequest1 l b a).1 = incoming l.
Proof.
  unfold handleOpenConnectionRequest1, conn_WriteTo.
  destruct (read_openConnectionRequest1 b) as [packet|]; [| split; reflexivity].
  case_bool_decide; destruct (WriteTo_err _ _ _); split; reflexivity.
Qed.

(** C6. A datagram [b] from an address that has a session, whatever its
    first byte, has one effect and no other: the trace gets one call of
    [receive], on that session and with [b] as it came, and the error of
    that call is what [handle] returns. No datagram is written, and the
    table, the queue and every other field are as before, so none of
    the handlers of offline messages has run. *)
Theorem handle_forwards_to_session
    (l : Listener) (b : list byte) (a : UDPAddr) (conn : Conn) :
  connections l !! UDPAddr_String a = Some conn ->
  (handle l b a).2 = Returns (Conn_receive_err (trace l) conn b)
  ∧ trace (handle l b a).1 = trace l ++ [EvConnReceive conn b]
  ∧ (∀ (out : list byte) (a' : UDPAddr),
       EvWriteTo out a' ∉ drop (length (trace l)) (trace (handle l b a).1))
  ∧ connections (handle l b a).1 = connections l
  ∧ incoming (handle l b a).1 = incoming l
  ∧ pongData (handle l b a).1 = pongData l
  ∧ watchers (handle l b a).1 = watchers l.
Proof.
  intros Hsome.
  assert (Hh : handle l b a
               = (emit (EvConnReceive conn b) l,
                  Returns (Conn_receive_err (trace l) conn b))).
  { unfold handle. rewrite Hsome. reflexivity. }
  rewrite Hh. cbn [fst snd emit trace connections incoming pongData watchers].
  split; [reflexivity |]. split; [reflexivity |]. split.
  - intros out a'. rewrite drop_app_length.
    rewrite list_elem_of_singleton. discriminate.
  - repeat split.
Qed.

(** C7. A Ping from an address without a session, which decodes to
    [packet], is answered: the trace gets one datagram written to the
    sender, made of the Pong ID, the Pong struct with the timestamp of
    the Ping and the [id] of the listener, then the two bytes of the
    payload length if and only if [protocol l] is [MinecraftProtocol],
    then the payload. [handle] returns the error of that write. *)
Theorem ping_is_answered_by_pong
    (l : Listener) (d b : list byte) (a : UDPAddr) (packet : unconnectedPing.t) :
  connections l !! UDPAddr_String a = None ->
  d = idUnconnectedPing :: b ->
  read_unconnectedPing b = Some packet ->
  let response :=
    {| unconnectedPong.Magic := magic;
       unconnectedPong.ServerGUID := id l;
       unconnectedPong.SendTimestamp := unconnectedPing.SendTimestamp packet |} in
  let prefix :=
    if bool_decide (protocol l = MinecraftProtocol)
    then BigEndian_put 2 (int16 (len (pongData l)))
    else [] in
  let out := idUnconnectedPong :: write_unconnectedPong response ++ prefix ++ pongData l in
  trace (handle l d a).1 = trace l ++ [EvWriteTo out a]
  ∧ (handle l d a).2
    = Returns ((λ _, "error sending unconnected pong"%string)
                 <$> WriteTo_err (trace l) out a)
  ∧ unconnectedPong.SendTimestamp response = unconnectedPing.SendTimestamp packet
  ∧ unconnectedPong.ServerGUID response = id l
  ∧ length prefix = (if bool_decide (protocol l = MinecraftProtocol) then 2 else 0)%nat
  ∧ connections (handle l d a).1 = connections l
  ∧ incoming (handle l d a).1 = incoming l.
Proof.
  intros Hnone -> Hread response prefix out.
  rewrite handle_ping by exact Hnone.
  unfold handleUnconnectedPing. rewrite Hread.
  unfold conn_WriteTo. subst out prefix response.
  case_bool_decide; cbn [length BigEndian_put].
  - rewrite <- !app_assoc, <- !app_comm_cons.
    destruct (WriteTo_err _ _ _); repeat split.
  - rewrite app_nil_l.
    destruct (WriteTo_err _ _ _); repeat split.
Qed.

End Dispatch.

(** ** The pong payload *)

(** C8. [PongData] panics exactly when the payload is longer than 32767
    bytes, and stores the payload exactly when it is not. *)
Theorem PongData_panics_iff_too_long (l : Listener) (data : list byte) :
  ((∃ msg : string, PongData l data = (l, Panics msg)) ↔ 32767 < len data)
  ∧ (PongData l data = (set_pongData data l, Returns tt) ↔ len data <= 32767)
  ∧ (pongData (set_pongData data l) = data).
Proof.
  unfold PongData, MaxInt16.
  destruct (Z.gtb_spec (len data) 32767) as [Hgt | Hle].
  - split; [| split; [| reflexivity]].
    + split; [lia | intros _; eexists; reflexivity].
    + split; [intros H; inversion H | lia].
  - split; [| split; [| reflexivity]].
    + split; [intros [msg H]; inversion H | lia].
    + split; [lia | reflexivity].
Qed.

(** ** Shutdown *)

Section Shutdown.
Context {env : Environment}.

(** The [err] variable of [Close] is [nil] before the first session and
    the closure sets it only when it is not [nil]: it stays [nil]. *)
Lemma Close_visit_keeps_nil (kvs : list (string * Conn)) (l : Listener) :
  fold_left Close_visit kvs (l, None)
  = (fold_left (λ l' kv, emit (EvConnClose kv.2) l') kvs l, None).
Proof.
  revert l. induction kvs as [| kv kvs IH]; intros l; [reflexivity |].
  cbn [fold_left]. unfold Close_visit at 2. apply IH.
Qed.

Lemma trace_fold_emit (kvs : list (string * Conn)) (l : Listener) :
  trace (fold_left (λ l' kv, emit (EvConnClose kv.2) l') kvs l)
  = trace l ++ (EvConnClose <$> kvs.*2).
Proof.
  revert l. induction kvs as [| kv kvs IH]; intros l; cbn [fold_left].
  - rewrite app_nil_r. reflexivity.
  - rewrite IH. cbn. rewrite <- app_assoc. reflexivity.
Qed.

Lemma fields_fold_emit (kvs : list (string * Conn)) (l : Listener) :
  let l' := fold_left (λ l' kv, emit (EvConnClose kv.2) l') kvs l in
  connections l' = connections l ∧ closeCtx l' = closeCtx l
  ∧ incoming l' = incoming l.
Proof.
  revert l. induction kvs as [| kv kvs IH]; intros l; cbn [fold_left].
  - repeat split.
  - apply (IH (emit (EvConnClose kv.2) l)).
Qed.

(** C2 (what the code does). [Close] cancels the context, calls [Close]
    on every session of the table, each once, then closes the socket.
    The error it returns is the error of closing the socket and nothing
    else: an error a session returns from its [Close] is dropped, because
    the closure tests [err], which is still [nil], where it means to test
    [closeErr]. *)
Theorem Close_drops_session_errors (l : Listener) :
  let sessions := (map_to_list (connections l)).*2 in
  let t := trace l ++ EvCancel :: (EvConnClose <$> sessions) in
  (Close l).2 = (λ _, "error closing UDP listener"%string) <$> PacketConn_Close_err t
  ∧ trace (Close l).1 = t ++ [EvSocketClose]
  ∧ connections (Close l).1 = connections l
  ∧ closeCtx (Close l).1 = true.
Proof.
  intros sessions t. unfold Close.
  rewrite Close_visit_keeps_nil.
  set (l0 := emit EvCancel (set_closeCtx true l)).
  change (connections l0) with (connections l).
  set (l1 := fold_left _ _ l0).
  assert (Ht : trace l1 = t).
  { subst l1 t sessions. rewrite trace_fold_emit. cbn.
    rewrite <- app_assoc. reflexivity. }
  destruct (fields_fold_emit (map_to_list (connections l)) l0) as (Hc & Hx & _).
  fold l1 in Hc, Hx.
  rewrite Ht. destruct (PacketConn_Close_err t); cbn; rewrite Ht, Hc, Hx;
    repeat split; reflexivity.
Qed.

End Shutdown.

(** ** The accept pipeline *)

Section Accepting.
Context {env : Environment}.

(** [Accept] does not touch the session table. *)
Lemma accept_from_connections (q : list Conn) (sched : list selectEnv) (l : Listener) :
  connections (accept_from q sched l).1 = connections l.
Proof.
  revert sched l. induction q as [| c q IH]; intros sched l; cbn [accept_from].
  - destruct (closed (incoming l)); reflexivity.
  - destruct sched as [| e sched]; [reflexivity |].
    destruct (select (closeCtx l) e); try reflexivity.
    rewrite IH. reflexivity.
Qed.

(** The goroutines [Accept] starts are for sessions of the queue. *)
Lemma accept_from_watchers (q : list Conn) (sched : list selectEnv) (l : Listener)
    (c : Conn) :
  c ∈ watchers (accept_from q sched l).1 -> c ∈ watchers l ∨ c ∈ q.
Proof.
  revert sched l. induction q as [| c' q IH]; intros sched l; cbn [accept_from].
  - destruct (closed (incoming l)); cbn; auto.
  - destruct sched as [| e sched]; [cbn; auto |].
    destruct (select (closeCtx l) e); cbn; auto.
    + rewrite elem_of_app, list_elem_of_singleton, elem_of_cons.
      intros [H | ->]; auto.
    + intros H. apply IH in H as [H | H]; cbn in H; auto.
      right. apply elem_of_cons. auto.
Qed.

(** An error of [Accept] means that the queue was closed or that the
    context was cancelled: a timeout alone gives no error. *)
Lemma accept_from_error (q : list Conn) (sched : list selectEnv) (l : Listener)
    (r : option Conn * error) :
  (accept_from q sched l).2 = Returns r ->
  (∃ c, r = (Some c, None))
  ∨ (r = (None, Some errListenerClosed)
     ∧ (closed (incoming l) = true ∨ closeCtx l = true
        ∨ ∃ e, e ∈ sched ∧ cancelled e = true)).
Proof.
  revert sched l. induction q as [| c q IH]; intros sched l; cbn [accept_from].
  - destruct (closed (incoming l)) eqn:Hcl; cbn; [| discriminate].
    intros [= <-]. right. auto.
  - destruct sched as [| e sched]; [discriminate |].
    destruct (select (closeCtx l) e) eqn:Hsel; cbn.
    + intros [= <-]. right. split; [reflexivity |].
      unfold select in Hsel.
      destruct (closeCtx l); [auto |].
      destruct (cancelled e) eqn:Hc.
      * right. right. exists e. split; [apply elem_of_cons; auto | exact Hc].
      * cbn in Hsel. destruct (completed e); discriminate.
    + intros [= <-]. left. eauto.
    + intros H. apply IH in H as [H | (-> & H)]; [auto |].
      right. split; [reflexivity |]. cbn in H.
      destruct H as [H | [H | (e' & He' & Hc)]]; auto.
      right. right. exists e'. split; [apply elem_of_cons; auto | exact Hc].
Qed.

(** C4 (what the code does). When the first candidate [c] of the queue
    neither completes its handshake nor sees the context cancelled within
    the ten seconds, [Accept] calls [c.Close()] and goes on with the rest
    of the queue. It never touches the session table: the entry of [c] is
    still there when [Accept] is over, and it is still there after the
    closed signal of [c] has fired, since the goroutine that deletes an
    entry is started only for a session that completed. *)
Theorem Accept_timeout_leaves_table_entry
    (l : Listener) (c : Conn) (q : list Conn) (e : selectEnv) (sched : list selectEnv) :
  buf (incoming l) = c :: q ->
  closeCtx l = false ->
  cancelled e = false ->
  completed e = false ->
  connections l !! UDPAddr_String (addr c) = Some c ->
  c ∉ watchers l ->
  c ∉ q ->
  let l' := (Accept l (e :: sched)).1 in
  Accept l (e :: sched)
  = Accept (emit (EvConnClose c) (set_incoming (mkChan q (closed (incoming l))) l)) sched
  ∧ connections l' !! UDPAddr_String (addr c) = Some c
  ∧ connections (connClosed c l') !! UDPAddr_String (addr c) = Some c.
Proof.
  intros Hq Hctx Hcan Hcom Hentry Hw Hnq l'.
  assert (Hstep : Accept l (e :: sched)
            = Accept (emit (EvConnClose c)
                        (set_incoming (mkChan q (closed (incoming l))) l)) sched).
  { unfold Accept. rewrite Hq. cbn [accept_from].
    unfold select. rewrite Hctx, Hcan, Hcom. reflexivity. }
  assert (Hconn : connections l' = connections l).
  { subst l'. unfold Accept. apply accept_from_connections. }
  split; [exact Hstep |]. split; [rewrite Hconn; exact Hentry |].
  unfold connClosed. rewrite bool_decide_eq_false_2.
  - rewrite Hconn. exact Hentry.
  - subst l'. rewrite Hstep. unfold Accept. intros Hin.
    apply accept_from_watchers in Hin as [Hin | Hin]; cbn in Hin; auto.
Qed.

End Accepting.

(** ** The handshake *)

Section Handshake.
Context {pkg : Package} {env : Environment}.

(** A Request2 that decodes and whose reply is written registers one
    session under the address string and sends it on [incoming]. *)
Lemma handleOpenConnectionRequest2_registers
    (l : Listener) (b data : list byte) (a : UDPAddr) (packet : openConnectionRequest2.t) :
  unmarshal_openConnectionRequest2 b = Some packet ->
  marshal_openConnectionReply2
    {| openConnectionReply2.Magic := magic;
       openConnectionReply2.ServerGUID := id l;
       openConnectionReply2.ClientAddress := a;
       openConnectionReply2.MTUSize := openConnectionRequest2.MTUSize packet |}
  = Some data ->
  WriteTo_err (trace l) (idOpenConnectionReply2 :: data) a = None ->
  let conn := newConn a (openConnectionRequest2.MTUSize packet)
                        (openConnectionRequest2.ClientGUID packet) in
  handleOpenConnectionRequest2 l b a
  = incoming_send
      (set_connections (<[UDPAddr_String a := conn]> (connections l))
         (emit (EvWriteTo (idOpenConnectionReply2 :: data) a) l))
      conn.
Proof.
  intros Hread Hdata Hwrite conn. unfold handleOpenConnectionRequest2.
  rewrite Hread, Hdata. unfold conn_WriteTo. rewrite Hwrite. reflexivity.
Qed.

(** C5 (amended). From an address without a session, a Request1 for the
    protocol of the listener whose Reply1 is written, then a Request2
    whose Reply2 is written, leave the table with one entry more, under
    the address string of the sender, and the queue with one session
    more, the one of the table, when the queue is open and has room.
    What [Accept] then delivers depends on the session. If the queue was
    empty, an [Accept] returns that session exactly when the [select]
    finds its handshake completed; when the listener is cancelled first
    it returns the error of a closed listener, and when the ten seconds
    pass first it closes the session and returns it to no one. In every
    case the session has left the queue: it is delivered once at most. *)
Theorem full_handshake_registers_one_session
    (l : Listener) (b1 b2 data : list byte) (a : UDPAddr)
    (p1 : openConnectionRequest1.t) (p2 : openConnectionRequest2.t) :
  connections l !! UDPAddr_String a = None ->
  closed (incoming l) = false ->
  len (buf (incoming l)) < incoming_cap ->
  read_openConnectionRequest1 b1 = Some p1 ->
  openConnectionRequest1.Protocol p1 = protocol l ->
  unmarshal_openConnectionRequest2 b2 = Some p2 ->
  marshal_openConnectionReply2
    {| openConnectionReply2.Magic := magic;
       openConnectionReply2.ServerGUID := id l;
       openConnectionReply2.ClientAddress := a;
       openConnectionReply2.MTUSize := openConnectionRequest2.MTUSize p2 |}
  = Some data ->
  let reply1 :=
    idOpenConnectionReply1
      :: write_openConnectionReply1
           {| openConnectionReply1.Magic := magic;
              openConnectionReply1.ServerGUID := id l;
              openConnectionReply1.MTUSize := int16 (int16 (len b1 + 1) + 28) |} in
  let reply2 := idOpenConnectionReply2 :: data in
  WriteTo_err (trace l) reply1 a = None ->
  WriteTo_err (trace l ++ [EvWriteTo reply1 a]) reply2 a = None ->
  let conn := newConn a (openConnectionRequest2.MTUSize p2)
                        (openConnectionRequest2.ClientGUID p2) in
  let l1 := (handle l (idOpenConnectionRequest1 :: b1) a).1 in
  let l2 := (handle l1 (idOpenConnectionRequest2 :: b2) a).1 in
  (handle l (idOpenConnectionRequest1 :: b1) a).2 = Returns None
  ∧ (handle l1 (idOpenConnectionRequest2 :: b2) a).2 = Returns None
  ∧ trace l2 = trace l ++ [EvWriteTo reply1 a; EvWriteTo reply2 a]
  ∧ connections l2 = <[UDPAddr_String a := conn]> (connections l)
  ∧ connections l2 !! UDPAddr_String a = Some conn
  ∧ size (connections l2) = S (size (connections l))
  ∧ buf (incoming l2) = buf (incoming l) ++ [conn]
  ∧ closed (incoming l2) = false
  ∧ (buf (incoming l) = [] ->
     ∀ (e : selectEnv) (sched : list selectEnv),
       buf (incoming (Accept l2 (e :: sched)).1) = []
       ∧ connections (Accept l2 (e :: sched)).1 = connections l2
       ∧ match select (closeCtx l) e with
         | caseCompletingSequenceDone =>
             (Accept l2 (e :: sched)).2 = Returns (Some conn, None)
             ∧ trace (Accept l2 (e :: sched)).1 = trace l2
         | caseCloseCtxDone =>
             (Accept l2 (e :: sched)).2 = Returns (None, Some errListenerClosed)
             ∧ trace (Accept l2 (e :: sched)).1 = trace l2
         | caseTimeAfter =>
             (Accept l2 (e :: sched)).2 = Blocks
             ∧ trace (Accept l2 (e :: sched)).1 = trace l2 ++ [EvConnClose conn]
         end).
Proof.
  intros Hnone Hopen Hroom Hr1 Hp1 Hr2 Hdata reply1 reply2 Hw1 Hw2 conn l1 l2.
  assert (H1 : handle l (idOpenConnectionRequest1 :: b1) a
               = (emit (EvWriteTo reply1 a) l, Returns None)).
  { rewrite handle_request1 by exact Hnone.
    rewrite (handleOpenConnectionRequest1_accepts l b1 a p1 Hr1 Hp1).
    cbv zeta. fold reply1. rewrite Hw1. reflexivity. }
  assert (El1 : l1 = emit (EvWriteTo reply1 a) l) by (subst l1; rewrite H1; reflexivity).
  assert (H2 : handle l1 (idOpenConnectionRequest2 :: b2) a
               = (set_incoming (mkChan (buf (incoming l) ++ [conn]) false)
                    (set_connections (<[UDPAddr_String a := conn]> (connections l))
                       (emit (EvWriteTo reply2 a) l1)),
                  Returns None)).
  { rewrite handle_request2 by (rewrite El1; exact Hnone).
    rewrite (handleOpenConnectionRequest2_registers l1 b2 data a p2 Hr2)
      by (rewrite El1; cbn; assumption).
    cbv zeta. fold conn reply2. unfold incoming_send.
    rewrite El1. cbn. rewrite Hopen.
    destruct (Z.ltb_spec (len (buf (incoming l))) incoming_cap) as [_ | Hge];
      [reflexivity | lia]. }
  assert (El2 : l2 = set_incoming (mkChan (buf (incoming l) ++ [conn]) false)
                    (set_connections (<[UDPAddr_String a := conn]> (connections l))
                       (emit (EvWriteTo reply2 a) l1)))
    by (subst l2; rewrite H2; reflexivity).
  split; [rewrite H1; reflexivity |].
  split; [rewrite H2; reflexivity |].
  split; [rewrite El2, El1; cbn; rewrite <- app_assoc; reflexivity |].
  split; [rewrite El2; reflexivity |].
  split; [rewrite El2; cbn; apply lookup_insert_eq |].
  split; [rewrite El2; cbn; apply map_size_insert_None; exact Hnone |].
  split; [rewrite El2; reflexivity |].
  split; [rewrite El2; reflexivity |].
  intros Hempty e sched. rewrite El2, El1. unfold Accept. cbn.
  rewrite Hempty. cbn.
  destruct (select (closeCtx l) e); cbn; repeat split.
Qed.

End Handshake.

(** ** Splitting and joining *)

Lemma bytes_Split_nonempty (s : list byte) (sep : byte) : bytes_Split s sep ≠ [].
Proof.
  destruct s as [| c s]; cbn; [discriminate |].
  case_bool_decide; [discriminate |].
  destruct (bytes_Split s sep); discriminate.
Qed.

(** No field of a split holds the separator. *)
Lemma bytes_Split_no_sep (s : list byte) (sep : byte) :
  Forall (λ f, sep ∉ f) (bytes_Split s sep).
Proof.
  induction s as [| c s IH]; cbn.
  - repeat constructor. apply not_elem_of_nil.
  - case_bool_decide as Hc.
    + constructor; [apply not_elem_of_nil | exact IH].
    + destruct (bytes_Split s sep) as [| f fs].
      * repeat constructor. rewrite list_elem_of_singleton. congruence.
      * inversion IH as [| ? ? Hf Hfs]; subst. constructor; [| exact Hfs].
        rewrite elem_of_cons. intros [-> | Hin]; [apply Hc; reflexivity | exact (Hf Hin)].
Qed.

Lemma bytes_Split_app_sep (f t : list byte) (sep : byte) :
  sep ∉ f -> bytes_Split (f ++ sep :: t) sep = f :: bytes_Split t sep.
Proof.
  induction f as [| c f IH]; intros Hf; cbn.
  - rewrite bool_decide_eq_true_2 by reflexivity. reflexivity.
  - rewrite not_elem_of_cons in Hf. destruct Hf as [Hc Hf].
    rewrite bool_decide_eq_false_2 by congruence.
    rewrite IH by exact Hf. reflexivity.
Qed.

Lemma bytes_Split_one_field (f : list byte) (sep : byte) :
  sep ∉ f -> bytes_Split f sep = [f].
Proof.
  induction f as [| c f IH]; intros Hf; cbn; [reflexivity |].
  rewrite not_elem_of_cons in Hf. destruct Hf as [Hc Hf].
  rewrite bool_decide_eq_false_2 by congruence.
  rewrite IH by exact Hf. reflexivity.
Qed.

(** Splitting a join gives the fields back, when no field holds the
    separator. *)
Lemma bytes_Split_Join (frs : list (list byte)) (sep : byte) :
  frs ≠ [] ->
  Forall (λ f, sep ∉ f) frs ->
  bytes_Split (bytes_Join frs [sep]) sep = frs.
Proof.
  induction frs as [| f frs IH]; intros Hne Hall; [congruence |].
  inversion Hall as [| ? ? Hf Hfs]; subst.
  destruct frs as [| g frs].
  - cbn. apply bytes_Split_one_field. exact Hf.
  - change (bytes_Join (f :: g :: frs) [sep])
      with (f ++ sep :: bytes_Join (g :: frs) [sep]).
    rewrite bytes_Split_app_sep by exact Hf.
    rewrite IH by (discriminate || exact Hfs). reflexivity.
Qed.

(** Joining a split gives the bytes back. *)
Lemma bytes_Join_Split (s : list byte) (sep : byte) :
  bytes_Join (bytes_Split s sep) [sep] = s.
Proof.
  induction s as [| c s IH]; cbn; [reflexivity |].
  pose proof (bytes_Split_nonempty s sep) as Hne.
  case_bool_decide as Hc.
  - subst c. destruct (bytes_Split s sep) as [| f fs]; [congruence |].
    change (bytes_Join ([] :: f :: fs) [sep]) with (sep :: bytes_Join (f :: fs) [sep]).
    rewrite IH. reflexivity.
  - destruct (bytes_Split s sep) as [| f fs]; [congruence |].
    destruct fs as [| g fs]; cbn in *; rewrite <- IH; reflexivity.
Qed.

Lemma length_bytes_Join (frs : list (list byte)) (sep : byte) :
  (length (bytes_Join frs [sep]) = length (concat frs) + (length frs - 1))%nat.
Proof.
  induction frs as [| f frs IH]; [reflexivity |].
  destruct frs as [| g frs].
  - cbn. rewrite app_nil_r. lia.
  - change (bytes_Join (f :: g :: frs) [sep])
      with (f ++ sep :: bytes_Join (g :: frs) [sep]).
    rewrite length_app. cbn [length concat]. rewrite IH.
    rewrite length_app. cbn [length concat]. rewrite length_app. lia.
Qed.

Lemma length_concat_Split (s : list byte) (sep : byte) :
  (length (concat (bytes_Split s sep)) <= length s)%nat.
Proof.
  induction s as [| c s IH]; cbn; [lia |].
  case_bool_decide.
  - cbn. lia.
  - destruct (bytes_Split s sep) as [| f fs]; cbn in *; lia.
Qed.

Lemma length_concat_take {A : Type} (n : nat) (ls : list (list A)) :
  (length (concat (take n ls)) <= length (concat ls))%nat.
Proof.
  revert n. induction ls as [| x ls IH]; intros [| n]; cbn; try lia.
  rewrite !length_app. specialize (IH n). lia.
Qed.

Lemma length_concat_replicate_nil {A : Type} (n : nat) :
  length (concat (replicate n (@nil A))) = 0%nat.
Proof. induction n; cbn; auto. Qed.

(** ** Decimal digits *)

Lemma digit_not_semicolon (d : Z) : 0 <= d < 10 -> byte_of_Z (48 + d) ≠ ";"%byte.
Proof.
  intros Hd.
  assert (Hcases : d = 0 ∨ d = 1 ∨ d = 2 ∨ d = 3 ∨ d = 4 ∨ d = 5 ∨ d = 6
                   ∨ d = 7 ∨ d = 8 ∨ d = 9) by lia.
  repeat (destruct Hcases as [-> | Hcases]; [vm_compute; discriminate |]).
  subst d. vm_compute. discriminate.
Qed.

Lemma formatBits_no_semicolon (fuel : nat) (u : Z) (acc : list byte) :
  ";"%byte ∉ acc -> ";"%byte ∉ formatBits fuel u acc.
Proof.
  revert u acc. induction fuel as [| k IH]; intros u acc Hacc; cbn; [exact Hacc |].
  assert (Hacc' : ";"%byte ∉ byte_of_Z (48 + u mod 10) :: acc).
  { rewrite not_elem_of_cons. split; [| exact Hacc].
    intros E. symmetry in E. revert E. apply digit_not_semicolon.
    apply Z.mod_pos_bound. lia. }
  destruct (u / 10 =? 0); [exact Hacc' | apply IH; exact Hacc'].
Qed.

Lemma length_formatBits (fuel : nat) (u : Z) (acc : list byte) :
  (length (formatBits fuel u acc) <= fuel + length acc)%nat.
Proof.
  revert u acc. induction fuel as [| k IH]; intros u acc; cbn; [lia |].
  destruct (u / 10 =? 0); [cbn; lia |].
  specialize (IH (u / 10) (byte_of_Z (48 + u mod 10) :: acc)). cbn in IH. lia.
Qed.

Lemma strconv_Itoa_no_semicolon (i : Z) : ";"%byte ∉ strconv_Itoa i.
Proof.
  unfold strconv_Itoa. destruct (i <? 0).
  - rewrite not_elem_of_cons. split; [discriminate |].
    apply formatBits_no_semicolon, not_elem_of_nil.
  - apply formatBits_no_semicolon, not_elem_of_nil.
Qed.

Lemma length_strconv_Itoa (i : Z) : (length (strconv_Itoa i) <= 21)%nat.
Proof.
  unfold strconv_Itoa. destruct (i <? 0); cbn [length].
  - pose proof (length_formatBits 20 (- i) []) as H. cbn [length] in H. lia.
  - pose proof (length_formatBits 20 i []) as H. cbn [length] in H. lia.
Qed.

Lemma digit_value (d : Z) : 0 <= d < 10 -> Z_of_byte (byte_of_Z (48 + d)) - 48 = d.
Proof.
  intros Hd.
  assert (Hcases : d = 0 ∨ d = 1 ∨ d = 2 ∨ d = 3 ∨ d = 4 ∨ d = 5 ∨ d = 6
                   ∨ d = 7 ∨ d = 8 ∨ d = 9) by lia.
  repeat (destruct Hcases as [-> | Hcases]; [reflexivity |]).
  subst d. reflexivity.
Qed.

(** With enough fuel the digit loop writes the digits of [u] in front of
    [acc]. *)
Lemma formatBits_digits (fuel : nat) (u : Z) (acc : list byte) :
  0 <= u < 10 ^ Z.of_nat fuel ->
  ∃ ds : list byte,
    formatBits fuel u acc = ds ++ acc ∧ decimal_value ds = u.
Proof.
  revert u acc. induction fuel as [| k IH]; intros u acc Hu.
  - cbn in Hu. exists []. split; [reflexivity | cbn; lia].
  - cbn [formatBits].
    assert (Hmod : 0 <= u mod 10 < 10) by (apply Z.mod_pos_bound; lia).
    destruct (Z.eqb_spec (u / 10) 0) as [Hq | Hq].
    + exists [byte_of_Z (48 + u mod 10)]. split; [reflexivity |].
      unfold decimal_value. cbn. rewrite digit_value by exact Hmod.
      pose proof (Z.div_mod u 10). lia.
    + destruct (IH (u / 10) (byte_of_Z (48 + u mod 10) :: acc)) as (ds & E & Hv).
      { rewrite Nat2Z.inj_succ, Z.pow_succ_r in Hu by lia.
        split; [apply Z.div_pos; lia |].
        apply Z.div_lt_upper_bound; lia. }
      exists (ds ++ [byte_of_Z (48 + u mod 10)]).
      rewrite E, <- app_assoc. split; [reflexivity |].
      unfold decimal_value in *. rewrite fold_left_app. cbn.
      rewrite Hv, digit_value by exact Hmod.
      pose proof (Z.div_mod u 10). lia.
Qed.

(** [strconv_Itoa] writes the decimal digits of every non-negative
    64-bit value: the fuel of the digit loop is enough. *)
Lemma strconv_Itoa_value (i : Z) :
  0 <= i < 2 ^ 64 -> decimal_value (strconv_Itoa i) = i.
Proof.
  intros Hi. unfold strconv_Itoa.
  destruct (Z.ltb_spec i 0) as [Hneg | _]; [lia |].
  destruct (formatBits_digits 20 i []) as (ds & E & Hv).
  { split; [lia |]. eapply Z.lt_le_trans; [apply Hi |]. vm_compute. discriminate. }
  rewrite E, app_nil_r. exact Hv.
Qed.

(** The ID of a listener is a value of [rand.Int63]: the conversion to
    [int] keeps it, and field 7 of a rewritten payload denotes it. *)
Lemma strconv_Itoa_to_int (i : Z) :
  0 <= i < 2 ^ 63 -> decimal_value (strconv_Itoa (to_int i)) = i.
Proof.
  intros Hi. unfold to_int, int64.
  change 9223372036854775808 with (2 ^ 63).
  change 18446744073709551616 with (2 ^ 64).
  rewrite Z.mod_small by lia.
  replace (i + 2 ^ 63 - 2 ^ 63) with i by lia.
  apply strconv_Itoa_value. lia.
Qed.

(** ** The hijack updater *)

(** The padding loop appends the missing empty fields. *)
Lemma pad_fragments_replicate (fuel : nat) (fragments : list (list byte)) :
  (9 - length fragments <= fuel)%nat ->
  pad_fragments fuel fragments = fragments ++ replicate (9 - length fragments) [].
Proof.
  revert fragments. induction fuel as [| k IH]; intros fragments Hfuel; cbn.
  - replace (9 - length fragments)%nat with 0%nat by lia.
    cbn. rewrite app_nil_r. reflexivity.
  - case_bool_decide as Hlt.
    + rewrite IH by (rewrite length_app; cbn; lia).
      rewrite length_app. cbn [length].
      replace (9 - length fragments)%nat with (S (9 - (length fragments + 1)))%nat by lia.
      cbn [replicate]. rewrite <- app_assoc. reflexivity.
    + replace (9 - length fragments)%nat with 0%nat by lia.
      cbn. rewrite app_nil_r. reflexivity.
Qed.

(** Cutting to nine fields and writing fields 6, 7 and 8 keeps the first
    six. *)
Lemma rewrite_fragments (fragments : list (list byte)) (x y z : list byte) :
  (9 <= length fragments)%nat ->
  <[8%nat := z]> (<[7%nat := y]> (<[6%nat := x]> (take 9 fragments)))
  = take 6 fragments ++ [x; y; z].
Proof.
  intros Hlen.
  do 9 (destruct fragments as [| ? fragments]; [cbn in Hlen; lia |]).
  reflexivity.
Qed.

Lemma length_padded (s : list byte) :
  (9 <= length (bytes_Split s ";"%byte
                  ++ replicate (9 - length (bytes_Split s ";"%byte)) []))%nat.
Proof. rewrite length_app, length_replicate. lia. Qed.

Lemma length_rewritten (s : list byte) (i : Z) :
  (length (rewritten s i) <= length s + 34)%nat.
Proof.
  unfold rewritten. rewrite length_bytes_Join.
  pose proof (length_padded s) as Hpad.
  rewrite concat_app, !length_app, length_take.
  pose proof (length_concat_take 6
    (bytes_Split s ";"%byte ++ replicate (9 - length (bytes_Split s ";"%byte)) [])) as Ht.
  rewrite concat_app, length_app, length_concat_replicate_nil in Ht.
  pose proof (length_concat_Split s ";"%byte) as Hs.
  pose proof (length_strconv_Itoa (to_int i)) as Hi.
  assert (Hc : length (concat [strconv_Itoa (to_int i); bytes_of "Proxy"; []])
               = (length (strconv_Itoa (to_int i)) + 5)%nat).
  { cbn [concat]. rewrite !length_app. reflexivity. }
  rewrite Hc. cbn [length]. lia.
Qed.

Lemma fields_rewritten (s : list byte) (i : Z) :
  bytes_Split (rewritten s i) ";"%byte
  = take 6 (bytes_Split s ";"%byte
              ++ replicate (9 - length (bytes_Split s ";"%byte)) [])
      ++ [strconv_Itoa (to_int i); bytes_of "Proxy"; []].
Proof.
  unfold rewritten. apply bytes_Split_Join.
  - intros E. apply app_eq_nil in E as [_ E]. discriminate.
  - apply Forall_app. split.
    + apply Forall_take, Forall_app. split; [apply bytes_Split_no_sep |].
      apply Forall_replicate, not_elem_of_nil.
    + repeat constructor.
      * apply strconv_Itoa_no_semicolon.
      * apply (bool_decide_unpack (";"%byte ∉ bytes_of "Proxy")).
        vm_compute. exact I.
      * apply not_elem_of_nil.
Qed.

(** One round of the updater, once the first four bytes are sliced. *)
Lemma HijackPong_tick_classified
    (l : Listener) (ping : byte -> option slice) (data : slice) (head : list byte) :
  ping (Protocol l) = Some data ->
  slice_to data 4 = Some head ->
  HijackPong_tick l ping
  = if bool_decide (head = bytes_of "MCPE")
    then PongData l (rewritten (elems data) (id l))
    else PongData l (elems data).
Proof.
  intros Hping Hhead. unfold HijackPong_tick. rewrite Hping, Hhead.
  case_bool_decide; [| reflexivity].
  rewrite pad_fragments_replicate by lia.
  rewrite rewrite_fragments by apply length_padded.
  reflexivity.
Qed.

Lemma slice_to_within (data : slice) (n : nat) :
  (n <= length (elems data))%nat -> slice_to data n = Some (take n (elems data)).
Proof.
  intros Hn. unfold slice_to, cap, len.
  rewrite bool_decide_eq_true_2 by lia.
  rewrite take_app_le by exact Hn. reflexivity.
Qed.

Lemma PongData_stores (l : Listener) (data : list byte) :
  len data <= MaxInt16 -> PongData l data = (set_pongData data l, Returns tt).
Proof.
  intros Hlen. unfold PongData.
  destruct (Z.gtb_spec (len data) MaxInt16); [lia | reflexivity].
Qed.

(** C9 (amended). For a fetched payload of at least four bytes, let the
    payload to store be the rewritten payload when the fetched one begins
    with the marker [MCPE], and the fetched payload itself when it does
    not. When the payload to store fits the limit of [PongData], the
    round returns and the pong payload of the listener is then the
    payload to store. So without the marker the payload is stored as it
    is; with the marker the payload stored has nine fields between
    semicolons: the first six are those of the fetched payload (empty
    where it has fewer), the seventh is the listener ID in decimal, the
    eighth is [Proxy], the ninth is empty. *)
Theorem HijackPong_tick_stores
    (l : Listener) (ping : byte -> option slice) (data : slice) :
  ping (Protocol l) = Some data ->
  (4 <= length (elems data))%nat ->
  let stored :=
    if bool_decide (take 4 (elems data) = bytes_of "MCPE")
    then rewritten (elems data) (id l)
    else elems data in
  len stored <= MaxInt16 ->
  (HijackPong_tick l ping).2 = Returns tt
  ∧ pongData (HijackPong_tick l ping).1 = stored
  ∧ (take 4 (elems data) ≠ bytes_of "MCPE" ->
     pongData (HijackPong_tick l ping).1 = elems data)
  ∧ (take 4 (elems data) = bytes_of "MCPE" ->
     let fields := bytes_Split (pongData (HijackPong_tick l ping).1) ";"%byte in
     length fields = 9%nat
     ∧ (∀ i : nat, (i < 6)%nat ->
          fields !! i = Some (default [] (bytes_Split (elems data) ";"%byte !! i)))
     ∧ fields !! 6%nat = Some (strconv_Itoa (to_int (id l)))
     ∧ fields !! 7%nat = Some (bytes_of "Proxy")
     ∧ fields !! 8%nat = Some []).
Proof.
  intros Hping Hlen stored Hsize.
  assert (Htick : HijackPong_tick l ping = (set_pongData stored l, Returns tt)).
  { rewrite (HijackPong_tick_classified l ping data (take 4 (elems data)) Hping)
      by (apply slice_to_within; exact Hlen).
    subst stored. case_bool_decide; apply PongData_stores; exact Hsize. }
  rewrite Htick. cbn [fst snd pongData set_pongData].
  split; [reflexivity |]. split; [reflexivity |]. split.
  - intros Hm. subst stored. rewrite bool_decide_eq_false_2 by exact Hm. reflexivity.
  - intros Hm. subst stored. rewrite bool_decide_eq_true_2 by exact Hm.
    cbv zeta. rewrite fields_rewritten.
    set (fr := bytes_Split (elems data) ";"%byte).
    set (padded := fr ++ replicate (9 - length fr) []).
    assert (Hpad : (9 <= length padded)%nat) by apply length_padded.
    assert (H6 : length (take 6 padded) = 6%nat) by (rewrite length_take; lia).
    split; [rewrite length_app, H6; reflexivity |].
    split.
    + intros i Hi. rewrite lookup_app_l by lia.
      rewrite lookup_take_lt by exact Hi.
      subst padded. destruct (fr !! i) as [f |] eqn:Hf.
      * rewrite (lookup_app_l_Some _ _ _ _ Hf). reflexivity.
      * apply lookup_ge_None in Hf. rewrite lookup_app_r by exact Hf.
        cbn. apply lookup_replicate_2. lia.
    + rewrite !lookup_app_r by lia. rewrite H6. repeat split.
Qed.

(** C10 (amended). The updater slices [data[:4]] without looking at the
    length, and the bounds of a slice expression are those of the
    capacity. So the round panics on the slice exactly when the capacity
    of the fetched payload is below 4, and it then leaves the listener
    as it is. A payload shorter than four bytes whose capacity is at
    least 4 does not make the round panic: the round returns, the four
    bytes compared with the marker are the payload followed by the bytes
    of its backing array past its end, and the payload is stored,
    rewritten when those four bytes are the marker and as it is when
    they are not. *)
Theorem HijackPong_tick_slice_bounds
    (l : Listener) (ping : byte -> option slice) (data : slice) :
  ping (Protocol l) = Some data ->
  ((HijackPong_tick l ping).2 = Panics "slice bounds out of range" ↔ cap data < 4)
  ∧ (cap data < 4 -> (HijackPong_tick l ping).1 = l)
  ∧ (4 <= cap data ->
     slice_to data 4
     = Some (take 4 (elems data) ++ take (4 - length (elems data)) (spare data)))
  ∧ (len (elems data) < 4 <= cap data ->
     (HijackPong_tick l ping).2 = Returns tt
     ∧ pongData (HijackPong_tick l ping).1
       = if bool_decide (elems data ++ take (4 - length (elems data)) (spare data)
                         = bytes_of "MCPE")
         then rewritten (elems data) (id l)
         else elems data).
Proof.
  intros Hping.
  destruct (decide (4 <= cap data)) as [Hcap | Hcap].
  - assert (Hhead : slice_to data 4
              = Some (take 4 (elems data)
                        ++ take (4 - length (elems data)) (spare data))).
    { unfold slice_to. rewrite bool_decide_eq_true_2 by exact Hcap.
      rewrite take_app. reflexivity. }
    pose proof (HijackPong_tick_classified l ping data _ Hping Hhead) as Htick.
    split; [| split; [intros H; lia | split; [intros _; exact Hhead |]]].
    + rewrite Htick. split; [| lia].
      unfold PongData. repeat case_bool_decide || destruct (_ >? _); cbn;
        discriminate.
    + intros [Hshort _]. rewrite Htick. clear Htick Hhead.
      rewrite (take_ge (elems data)) by (unfold len in Hshort; lia).
      pose proof (length_rewritten (elems data) (id l)) as Hr.
      case_bool_decide;
        rewrite PongData_stores by (unfold len, MaxInt16 in *; lia);
        split; reflexivity.
  - assert (Htick : HijackPong_tick l ping = (l, Panics "slice bounds out of range")).
    { unfold HijackPong_tick. rewrite Hping. unfold slice_to.
      rewrite bool_decide_eq_false_2 by exact Hcap. reflexivity. }
    rewrite Htick. cbn [fst snd].
    split; [split; [lia | reflexivity] |].
    split; [reflexivity |]. split; intros H; lia.
Qed.

(** * Further properties of the listener *)

(** ** The dispatcher, on every datagram *)

Section DispatchAll.
Context {pkg : Package} {env : Environment}.

(** Take [handle] and its handlers apart, branch by branch. *)
Ltac handle_branches :=
  unfold handle, handleUnconnectedPing, handleOpenConnectionRequest1,
    handleOpenConnectionRequest2, conn_WriteTo, incoming_send;
  repeat first [case_match | case_bool_decide]; simplify_eq; cbn.

(** X1. Handling one datagram has at most one effect on the outside: one
    datagram written, and then to the sender of the datagram handled, or
    one call of [receive], on the session of the sender. *)
Theorem handle_one_effect (l : Listener) (b : list byte) (a : UDPAddr) :
  trace (handle l b a).1 = trace l
  ∨ (∃ out : list byte,
       connections l !! UDPAddr_String a = None
       ∧ trace (handle l b a).1 = trace l ++ [EvWriteTo out a])
  ∨ (∃ c : Conn,
       connections l !! UDPAddr_String a = Some c
       ∧ trace (handle l b a).1 = trace l ++ [EvConnReceive c b]).
Proof.
  handle_branches; eauto.
Qed.

(** X2. Handling a datagram writes none of [Protocol], [id], [protocol],
    the pong payload and the context, starts no goroutine of [Accept],
    and does not close the queue. *)
Theorem handle_keeps_config (l : Listener) (b : list byte) (a : UDPAddr) :
  same_config l (handle l b a).1
  ∧ watchers (handle l b a).1 = watchers l
  ∧ closed (incoming (handle l b a).1) = closed (incoming l).
Proof.
  unfold same_config. handle_branches; repeat split; try reflexivity; auto.
Qed.

(** X3. Handling a datagram either leaves the session table as it is, or
    the datagram is a Request2 that decodes, from an address without a
    session, and the table gets the new session under that address. So no
    entry is removed or replaced by the dispatcher. *)
Theorem handle_table_grows (l : Listener) (b : list byte) (a : UDPAddr) :
  (connections (handle l b a).1 = connections l
   ∨ ∃ (b' : list byte) (packet : openConnectionRequest2.t),
       b = idOpenConnectionRequest2 :: b'
       ∧ connections l !! UDPAddr_String a = None
       ∧ unmarshal_openConnectionRequest2 b' = Some packet
       ∧ connections (handle l b a).1
         = <[UDPAddr_String a := newConn a (openConnectionRequest2.MTUSize packet)
                                         (openConnectionRequest2.ClientGUID packet)]>
             (connections l))
  ∧ connections l ⊆ connections (handle l b a).1.
Proof.
  assert (Hcases :
    connections (handle l b a).1 = connections l
    ∨ ∃ (b' : list byte) (packet : openConnectionRequest2.t),
        b = idOpenConnectionRequest2 :: b'
        ∧ connections l !! UDPAddr_String a = None
        ∧ unmarshal_openConnectionRequest2 b' = Some packet
        ∧ connections (handle l b a).1
          = <[UDPAddr_String a := newConn a (openConnectionRequest2.MTUSize packet)
                                          (openConnectionRequest2.ClientGUID packet)]>
              (connections l)).
  { handle_branches; eauto 10. }
  split; [exact Hcases |].
  destruct Hcases as [-> | (b' & packet & _ & Hnone & _ & ->)]; [reflexivity |].
  apply insert_subseteq. exact Hnone.
Qed.

End DispatchAll.

(** ** The dispatcher, on its error and edge cases *)

Section DispatchEdges.
Context {pkg : Package} {env : Environment}.

(** X4. From an address without a session, an empty datagram and a Ping,
    a Request1 or a Request2 whose body does not decode are answered by
    nothing: [handle] returns an error and the listener is as before. *)
Theorem handle_undecodable (l : Listener) (b : list byte) (a : UDPAddr) :
  connections l !! UDPAddr_String a = None ->
  (b = []
   ∨ (∃ b', b = idUnconnectedPing :: b' ∧ read_unconnectedPing b' = None)
   ∨ (∃ b', b = idOpenConnectionRequest1 :: b'
            ∧ read_openConnectionRequest1 b' = None)
   ∨ (∃ b', b = idOpenConnectionRequest2 :: b'
            ∧ unmarshal_openConnectionRequest2 b' = None)) ->
  ∃ msg : string, handle l b a = (l, Returns (Some msg)).
Proof.
  intros Hnone [-> | [(b' & -> & Hread) | [(b' & -> & Hread) | (b' & -> & Hread)]]].
  - unfold handle. rewrite Hnone. eauto.
  - rewrite handle_ping by exact Hnone.
    unfold handleUnconnectedPing. rewrite Hread. eauto.
  - rewrite handle_request1 by exact Hnone.
    unfold handleOpenConnectionRequest1. rewrite Hread. eauto.
  - rewrite handle_request2 by exact Hnone.
    unfold handleOpenConnectionRequest2. rewrite Hread. eauto.
Qed.

(** X5. From an address without a session, a datagram whose first byte is
    none of the three packet IDs handled changes nothing; it is an error
    exactly when the first byte does not have the bit [bitFlagValid]. *)
Theorem handle_unknown_packet
    (l : Listener) (packetID : byte) (b : list byte) (a : UDPAddr) :
  connections l !! UDPAddr_String a = None ->
  packetID ∉ [idUnconnectedPing; idOpenConnectionRequest1; idOpenConnectionRequest2] ->
  (handle l (packetID :: b) a).1 = l
  ∧ ((handle l (packetID :: b) a).2 = Returns None
     ↔ Z.land (Z_of_byte packetID) (Z_of_byte bitFlagValid) ≠ 0)
  ∧ ((∃ msg : string, (handle l (packetID :: b) a).2 = Returns (Some msg))
     ↔ Z.land (Z_of_byte packetID) (Z_of_byte bitFlagValid) = 0).
Proof.
  intros Hnone Hid. rewrite !not_elem_of_cons in Hid.
  destruct Hid as (H1 & H2 & H3 & _).
  unfold handle. rewrite Hnone.
  rewrite !bool_decide_eq_false_2 by assumption.
  destruct (Z.eqb_spec (Z.land (Z_of_byte packetID) (Z_of_byte bitFlagValid)) 0)
    as [Hz | Hz]; cbn.
  - split; [reflexivity |]. split.
    + split; [discriminate | congruence].
    + split; [intros _; exact Hz | intros _; eauto].
  - split; [reflexivity |]. split.
    + split; [intros _; exact Hz | reflexivity].
    + split; [intros [msg H]; discriminate H | congruence].
Qed.

(** X6. A Request1 from an address without a session, for a version other
    than [protocol l], is answered by IncompatibleProtocolVersion with
    the ID of the listener and the version it accepts. [handle] returns
    an error also when the answer was written, and there is no new
    session in the table or in the queue. *)
Theorem request1_other_version_is_rejected
    (l : Listener) (b : list byte) (a : UDPAddr) (packet : openConnectionRequest1.t) :
  connections l !! UDPAddr_String a = None ->
  read_openConnectionRequest1 b = Some packet ->
  openConnectionRequest1.Protocol packet ≠ protocol l ->
  let out := idIncompatibleProtocolVersion
               :: write_incompatibleProtocolVersion
                    {| incompatibleProtocolVersion.Magic := magic;
                       incompatibleProtocolVersion.ServerGUID := id l;
                       incompatibleProtocolVersion.ServerProtocol := protocol l |} in
  (∃ msg : string,
     handle l (idOpenConnectionRequest1 :: b) a
     = (emit (EvWriteTo out a) l, Returns (Some msg)))
  ∧ connections (handle l (idOpenConnectionRequest1 :: b) a).1 = connections l
  ∧ incoming (handle l (idOpenConnectionRequest1 :: b) a).1 = incoming l.
Proof.
  intros Hnone Hread Hproto out.
  rewrite handle_request1 by exact Hnone.
  split; [exact (handleOpenConnectionRequest1_rejects l b a packet Hread Hproto) |].
  apply handleOpenConnectionRequest1_no_session.
Qed.

(** X7. A Request2 is enough to open a session: from an address without
    a session, with an open queue that has room, a Request2 that decodes
    and whose Reply2 is written registers the session, whether or not a
    Request1 came before. The session has the address of the sender and
    the MTU and the GUID of the Request2, whatever they are. *)
Theorem request2_alone_registers
    (l : Listener) (b data : list byte) (a : UDPAddr) (packet : openConnectionRequest2.t) :
  connections l !! UDPAddr_String a = None ->
  closed (incoming l) = false ->
  len (buf (incoming l)) < incoming_cap ->
  unmarshal_openConnectionRequest2 b = Some packet ->
  marshal_openConnectionReply2
    {| openConnectionReply2.Magic := magic;
       openConnectionReply2.ServerGUID := id l;
       openConnectionReply2.ClientAddress := a;
       openConnectionReply2.MTUSize := openConnectionRequest2.MTUSize packet |}
  = Some data ->
  WriteTo_err (trace l) (idOpenConnectionReply2 :: data) a = None ->
  let conn := {| addr := a;
                 mtuSize := openConnectionRequest2.MTUSize packet;
                 guid := openConnectionRequest2.ClientGUID packet |} in
  (handle l (idOpenConnectionRequest2 :: b) a).2 = Returns None
  ∧ trace (handle l (idOpenConnectionRequest2 :: b) a).1
    = trace l ++ [EvWriteTo (idOpenConnectionReply2 :: data) a]
  ∧ connections (handle l (idOpenConnectionRequest2 :: b) a).1
      !! UDPAddr_String a = Some conn
  ∧ buf (incoming (handle l (idOpenConnectionRequest2 :: b) a).1)
    = buf (incoming l) ++ [conn].
Proof.
  intros Hnone Hopen Hroom Hread Hdata Hwrite conn.
  rewrite handle_request2 by exact Hnone.
  rewrite (handleOpenConnectionRequest2_registers l b data a packet Hread Hdata Hwrite).
  unfold incoming_send. cbn. rewrite Hopen.
  destruct (Z.ltb_spec (len (buf (incoming l))) incoming_cap) as [_ | Hge]; [| lia].
  cbn. repeat split. apply lookup_insert_eq.
Qed.

(** X8. When the Reply2 cannot be written, no session is opened: the
    table and the queue are as before and [handle] returns an error. *)
Theorem request2_reply_not_written
    (l : Listener) (b data : list byte) (a : UDPAddr)
    (packet : openConnectionRequest2.t) (e : string) :
  connections l !! UDPAddr_String a = None ->
  unmarshal_openConnectionRequest2 b = Some packet ->
  marshal_openConnectionReply2
    {| openConnectionReply2.Magic := magic;
       openConnectionReply2.ServerGUID := id l;
       openConnectionReply2.ClientAddress := a;
       openConnectionReply2.MTUSize := openConnectionRequest2.MTUSize packet |}
  = Some data ->
  WriteTo_err (trace l) (idOpenConnectionReply2 :: data) a = Some e ->
  handle l (idOpenConnectionRequest2 :: b) a
  = (emit (EvWriteTo (idOpenConnectionReply2 :: data) a) l,
     Returns (Some "error sending open connection reply 2"%string))
  ∧ connections (handle l (idOpenConnectionRequest2 :: b) a).1 = connections l
  ∧ incoming (handle l (idOpenConnectionRequest2 :: b) a).1 = incoming l.
Proof.
  intros Hnone Hread Hdata Hwrite.
  rewrite handle_request2 by exact Hnone.
  unfold handleOpenConnectionRequest2, conn_WriteTo.
  rewrite Hread, Hdata, Hwrite. repeat split.
Qed.

(** X9. When [incoming] holds its 128 sessions, a Request2 that would
    open a session is answered and the session is put in the table, and
    then the read loop blocks on the send: the queue is as before. *)
Theorem request2_on_full_queue_blocks
    (l : Listener) (b data : list byte) (a : UDPAddr) (packet : openConnectionRequest2.t) :
  connections l !! UDPAddr_String a = None ->
  closed (incoming l) = false ->
  incoming_cap <= len (buf (incoming l)) ->
  unmarshal_openConnectionRequest2 b = Some packet ->
  marshal_openConnectionReply2
    {| openConnectionReply2.Magic := magic;
       openConnectionReply2.ServerGUID := id l;
       openConnectionReply2.ClientAddress := a;
       openConnectionReply2.MTUSize := openConnectionRequest2.MTUSize packet |}
  = Some data ->
  WriteTo_err (trace l) (idOpenConnectionReply2 :: data) a = None ->
  let conn := newConn a (openConnectionRequest2.MTUSize packet)
                        (openConnectionRequest2.ClientGUID packet) in
  handle l (idOpenConnectionRequest2 :: b) a
  = (set_connections (<[UDPAddr_String a := conn]> (connections l))
       (emit (EvWriteTo (idOpenConnectionReply2 :: data) a) l),
     Blocks).
Proof.
  intros Hnone Hopen Hfull Hread Hdata Hwrite conn.
  rewrite handle_request2 by exact Hnone.
  rewrite (handleOpenConnectionRequest2_registers l b data a packet Hread Hdata Hwrite).
  unfold incoming_send. cbn. rewrite Hopen.
  destruct (Z.ltb_spec (len (buf (incoming l))) incoming_cap) as [Hlt | _];
    [lia | reflexivity].
Qed.

End DispatchEdges.

(** ** The accept pipeline, in general *)

Section AcceptAll.
Context {pkg : Package} {env : Environment}.

Lemma same_config_refl (l : Listener) : same_config l l.
Proof. unfold same_config. repeat split. Qed.

Lemma same_config_trans (l1 l2 l3 : Listener) :
  same_config l1 l2 -> same_config l2 l3 -> same_config l1 l3.
Proof.
  unfold same_config. intros (?&?&?&?&?) (?&?&?&?&?).
  repeat split; congruence.
Qed.

(** What a run of the loop of [Accept] over the queue [q] does: it closes
    the candidates [pre] that timed out, in order; then it takes at most
    one more candidate ([mid]) and stops. When it returns a session, that
    session is the one taken, and a goroutine waits for its end. *)
Lemma accept_from_shape (q : list Conn) (sched : list selectEnv) (l : Listener) :
  closed (incoming (accept_from q sched l).1) = closed (incoming l)
  ∧ same_config l (accept_from q sched l).1
  ∧ ∃ pre mid : list Conn,
      q = pre ++ mid ++ buf (incoming (accept_from q sched l).1)
      ∧ trace (accept_from q sched l).1 = trace l ++ (EvConnClose <$> pre)
      ∧ ((∃ c : Conn,
            mid = [c]
            ∧ (accept_from q sched l).2 = Returns (Some c, None)
            ∧ watchers (accept_from q sched l).1 = watchers l ++ [c]
            ∧ (length pre < length sched)%nat)
         ∨ ((length mid <= 1)%nat
            ∧ watchers (accept_from q sched l).1 = watchers l
            ∧ ∀ c : Conn, (accept_from q sched l).2 ≠ Returns (Some c, None))).
Proof.
  revert sched l. induction q as [| c q IH]; intros sched l; cbn [accept_from].
  - destruct (closed (incoming l)) eqn:Hcl; cbn; rewrite ?Hcl;
      (split; [reflexivity |]); (split; [unfold same_config; repeat split |]);
      exists [], []; cbn; rewrite app_nil_r;
      (split; [reflexivity |]); (split; [reflexivity |]); right;
      (split; [lia |]); (split; [reflexivity |]); intros c'; discriminate.
  - destruct sched as [| e sched].
    { cbn. split; [reflexivity |]. split; [unfold same_config; repeat split |].
      exists [], [c]. cbn. rewrite app_nil_r.
      split; [reflexivity |]. split; [reflexivity |]. right.
      split; [lia |]. split; [reflexivity |]. intros c'; discriminate. }
    destruct (select (closeCtx l) e).
    + cbn. split; [reflexivity |]. split; [unfold same_config; repeat split |].
      exists [], [c]. cbn. rewrite app_nil_r.
      split; [reflexivity |]. split; [reflexivity |]. right.
      split; [lia |]. split; [reflexivity |]. intros c'; discriminate.
    + cbn. split; [reflexivity |]. split; [unfold same_config; repeat split |].
      exists [], [c]. cbn. rewrite app_nil_r.
      split; [reflexivity |]. split; [reflexivity |]. left.
      exists c. repeat split. lia.
    + specialize (IH sched
        (emit (EvConnClose c) (set_incoming (mkChan q (closed (incoming l))) l))).
      destruct IH as (Hcl & Hcfg & pre & mid & Hq & Htr & Hcase).
      split; [exact Hcl |]. split; [exact Hcfg |].
      exists (c :: pre), mid. split; [cbn; rewrite <- Hq; reflexivity |].
      split; [rewrite Htr; cbn; rewrite <- app_assoc; reflexivity |].
      destruct Hcase as [(c' & -> & Hr & Hw & Hlen) | (Hmid & Hw & Hr)].
      * left. exists c'. repeat split; [exact Hr | exact Hw | cbn; lia].
      * right. repeat split; [exact Hmid | exact Hw | exact Hr].
Qed.

(** X10. When [Accept] returns a session, the queue was: the candidates
    that timed out, each of which got one [Close], in order; then the
    session returned; then what is still in the queue. A goroutine now
    waits for the end of the session returned, and nothing else of the
    listener has changed. *)
Theorem Accept_delivers_in_order
    (l : Listener) (sched : list selectEnv) (c : Conn) :
  (Accept l sched).2 = Returns (Some c, None) ->
  ∃ pre : list Conn,
    buf (incoming l) = pre ++ c :: buf (incoming (Accept l sched).1)
    ∧ trace (Accept l sched).1 = trace l ++ (EvConnClose <$> pre)
    ∧ watchers (Accept l sched).1 = watchers l ++ [c]
    ∧ connections (Accept l sched).1 = connections l
    ∧ (length pre < length sched)%nat.
Proof.
  intros Hr. unfold Accept in *.
  destruct (accept_from_shape (buf (incoming l)) sched l)
    as (_ & _ & pre & mid & Hq & Htr & Hcase).
  destruct Hcase as [(c' & -> & Hr' & Hw & Hlen) | (_ & _ & Hno)].
  - rewrite Hr in Hr'. injection Hr' as <-.
    exists pre. repeat split; try assumption.
    apply accept_from_connections.
  - exfalso. exact (Hno c Hr).
Qed.

(** With a closed queue, the loop of [Accept] returns when it knows how
    the [select] on each candidate goes. *)
Lemma accept_from_returns (q : list Conn) (sched : list selectEnv) (l : Listener) :
  closed (incoming l) = true ->
  (length q <= length sched)%nat ->
  ∃ r, (accept_from q sched l).2 = Returns r.
Proof.
  revert sched l. induction q as [| c q IH]; intros sched l Hcl Hlen; cbn [accept_from].
  - rewrite Hcl. eauto.
  - destruct sched as [| e sched]; [cbn in Hlen; lia |].
    destruct (select (closeCtx l) e); eauto.
    apply IH; [exact Hcl | cbn in Hlen; lia].
Qed.

(** X11. When reading the socket fails, the read loop closes [incoming]
    and ends. The sessions already queued stay in the queue; [Accept]
    then never blocks once the [select] on each of them has gone one
    way, and with an empty queue it returns the error of a closed
    listener at once. *)
Theorem read_error_ends_accepting (l : Listener) (sched : list selectEnv) :
  let l' := (listen_round l None).1 in
  (listen_round l None).2 = Returns false
  ∧ buf (incoming l') = buf (incoming l)
  ∧ ((length (buf (incoming l)) <= length sched)%nat ->
     ∃ r, (Accept l' sched).2 = Returns r)
  ∧ (buf (incoming l) = [] ->
     (Accept l' sched).2 = Returns (None, Some errListenerClosed)).
Proof.
  cbn. split; [reflexivity |]. split; [reflexivity |]. split.
  - intros Hlen. unfold Accept. cbn. apply accept_from_returns; [reflexivity | exact Hlen].
  - intros Hq. unfold Accept. cbn. rewrite Hq. reflexivity.
Qed.

(** X12. Once the closed signal of a session that [Accept] has returned
    fires, the entry of its address is deleted from the table, and no
    goroutine waits for that session any more. *)
Theorem accepted_session_is_unregistered
    (l : Listener) (sched : list selectEnv) (c : Conn) :
  (Accept l sched).2 = Returns (Some c, None) ->
  let l' := connClosed c (Accept l sched).1 in
  connections l' !! UDPAddr_String (addr c) = None
  ∧ (c ∉ watchers l')
  ∧ (∀ k : string, k ≠ UDPAddr_String (addr c) ->
       connections l' !! k = connections l !! k).
Proof.
  intros Hr l'. unfold Accept in *.
  destruct (accept_from_shape (buf (incoming l)) sched l)
    as (_ & _ & pre & mid & _ & _ & Hcase).
  pose proof (accept_from_connections (buf (incoming l)) sched l) as Hconn.
  destruct Hcase as [(c' & _ & Hr' & Hw & _) | (_ & _ & Hno)];
    [| exfalso; exact (Hno c Hr)].
  rewrite Hr in Hr'. injection Hr' as <-.
  subst l'. unfold connClosed.
  rewrite bool_decide_eq_true_2
    by (rewrite Hw, elem_of_app, list_elem_of_singleton; auto).
  cbn. split; [apply lookup_delete_eq |]. split.
  - rewrite list_elem_of_filter. intros [Hne _]. apply Hne. reflexivity.
  - intros k Hk. rewrite lookup_delete_ne by congruence. rewrite Hconn. reflexivity.
Qed.

(** X13. Once the context of the listener is cancelled, [Accept] closes
    no candidate: it takes at most the first one off the queue, and it
    returns the error of a closed listener unless that candidate has
    completed its handshake and [select] picks it. *)
Theorem Accept_after_cancel (l : Listener) (sched : list selectEnv) :
  closeCtx l = true ->
  trace (Accept l sched).1 = trace l
  ∧ buf (incoming (Accept l sched).1) = drop 1 (buf (incoming l))
  ∧ (∀ (c : Conn) (q : list Conn) (e : selectEnv) (sched' : list selectEnv),
       buf (incoming l) = c :: q -> sched = e :: sched' ->
       (Accept l sched).2
       = if completed e && negb (prefer_cancelled e)
         then Returns (Some c, None)
         else Returns (None, Some errListenerClosed)).
Proof.
  intros Hctx. unfold Accept.
  destruct (buf (incoming l)) as [| c q] eqn:Hq; cbn [accept_from].
  - destruct (closed (incoming l)); cbn; repeat split; intros; discriminate.
  - destruct sched as [| e sched]; [cbn; repeat split; intros; discriminate |].
    rewrite Hctx. unfold select. cbn.
    split; [destruct (completed e), (prefer_cancelled e); reflexivity |].
    split; [destruct (completed e), (prefer_cancelled e); reflexivity |].
    intros c' q' e' sched' [= <- <-] [= <- <-].
    destruct (completed e), (prefer_cancelled e); reflexivity.
Qed.

(** X14. After a candidate has timed out in [Accept], its address still
    has its entry: every later datagram from that address, a handshake
    message included, goes to the [receive] of the session [Accept] has
    closed, and is not answered by the listener. *)
Theorem timed_out_address_stays_forwarded
    (l : Listener) (c : Conn) (q : list Conn)
    (e : selectEnv) (sched : list selectEnv) (b : list byte) :
  buf (incoming l) = c :: q ->
  closeCtx l = false ->
  cancelled e = false ->
  completed e = false ->
  connections l !! UDPAddr_String (addr c) = Some c ->
  let l' := (Accept l (e :: sched)).1 in
  EvConnClose c ∈ trace l'
  ∧ handle l' b (addr c)
    = (emit (EvConnReceive c b) l', Returns (Conn_receive_err (trace l') c b)).
Proof.
  intros Hq Hctx Hcan Hcom Hentry l'. split.
  - subst l'. unfold Accept. rewrite Hq. cbn [accept_from].
    unfold select. rewrite Hctx, Hcan, Hcom. cbn.
    destruct (accept_from_shape q sched
                (emit (EvConnClose c)
                   (set_incoming (mkChan q (closed (incoming l))) l)))
      as (_ & _ & pre & mid & _ & Htr & _).
    rewrite Htr. cbn. rewrite !elem_of_app, list_elem_of_singleton. auto.
  - unfold handle.
    replace (connections l') with (connections l)
      by (symmetry; apply accept_from_connections).
    rewrite Hentry. reflexivity.
Qed.

End AcceptAll.

(** ** Shutdown and the read loop *)

Section ShutdownAll.
Context {pkg : Package} {env : Environment}.

Lemma fold_emit_frame (kvs : list (string * Conn)) (l : Listener) :
  let l' := fold_left (λ l' kv, emit (EvConnClose kv.2) l') kvs l in
  Protocol l' = Protocol l ∧ incoming l' = incoming l
  ∧ connections l' = connections l ∧ closeCtx l' = closeCtx l
  ∧ id l' = id l ∧ pongData l' = pongData l ∧ protocol l' = protocol l
  ∧ watchers l' = watchers l.
Proof.
  revert l. induction kvs as [| kv kvs IH]; intros l; cbn [fold_left].
  - repeat split.
  - apply (IH (emit (EvConnClose kv.2) l)).
Qed.

(** The events of one shutdown of a listener. *)
Lemma Close_state (l : Listener) :
  trace (Close l).1
  = trace l ++ EvCancel :: (EvConnClose <$> (map_to_list (connections l)).*2)
      ++ [EvSocketClose]
  ∧ closeCtx (Close l).1 = true
  ∧ Protocol (Close l).1 = Protocol l ∧ incoming (Close l).1 = incoming l
  ∧ connections (Close l).1 = connections l
  ∧ id (Close l).1 = id l ∧ pongData (Close l).1 = pongData l
  ∧ protocol (Close l).1 = protocol l ∧ watchers (Close l).1 = watchers l.
Proof.
  unfold Close. rewrite Close_visit_keeps_nil.
  set (l0 := emit EvCancel (set_closeCtx true l)).
  change (connections l0) with (connections l).
  pose proof (trace_fold_emit (map_to_list (connections l)) l0) as Ht.
  destruct (fold_emit_frame (map_to_list (connections l)) l0)
    as (H1 & H2 & H3 & H4 & H5 & H6 & H7 & H8).
  set (l1 := fold_left _ _ l0) in *.
  destruct (PacketConn_Close_err (trace l1)); cbn;
    rewrite Ht, H1, H2, H3, H4, H5, H6, H7, H8; cbn;
    rewrite <- !app_assoc; repeat split.
Qed.

(** X15. [Close] has no guard against a second call: the second call
    cancels again, calls [Close] on every session of the table again and
    closes the socket again. *)
Theorem Close_twice_repeats (l : Listener) :
  let shutdown :=
    EvCancel :: (EvConnClose <$> (map_to_list (connections l)).*2)
      ++ [EvSocketClose] in
  trace (Close (Close l).1).1 = trace l ++ shutdown ++ shutdown.
Proof.
  cbv zeta.
  destruct (Close_state (Close l).1) as (Ht2 & _).
  destruct (Close_state l) as (Ht1 & _ & _ & _ & Hc & _).
  rewrite Ht2, Hc, Ht1. rewrite <- !app_assoc. reflexivity.
Qed.

(** X16. [Close] leaves the table and the queue as they are, and it does
    not close [incoming]: on an empty queue that is still open, an
    [Accept] after [Close] blocks. It is the read loop that closes the
    queue, when its read fails; after that [Accept] returns the error of
    a closed listener. *)
Theorem Close_wakes_Accept_through_read_loop (l : Listener) (sched : list selectEnv) :
  buf (incoming l) = [] ->
  closed (incoming l) = false ->
  connections (Close l).1 = connections l
  ∧ incoming (Close l).1 = incoming l
  ∧ (Accept (Close l).1 sched).2 = Blocks
  ∧ (Accept (listen_round (Close l).1 None).1 sched).2
    = Returns (None, Some errListenerClosed).
Proof.
  intros Hbuf Hopen.
  destruct (Close_state l) as (_ & _ & _ & Hinc & Hconn & _).
  split; [exact Hconn |]. split; [exact Hinc |]. split.
  - unfold Accept. rewrite Hinc, Hbuf. cbn. rewrite Hinc, Hopen. reflexivity.
  - unfold Accept, listen_round. cbn. rewrite Hinc, Hbuf. reflexivity.
Qed.

(** How handling one datagram can end: it returns; or it panics, and the
    queue was closed; or it blocks, and the queue was open and full. *)
Lemma handle_outcome (l : Listener) (b : list byte) (a : UDPAddr) :
  (∃ err : error, (handle l b a).2 = Returns err)
  ∨ ((∃ msg : string, (handle l b a).2 = Panics msg) ∧ closed (incoming l) = true)
  ∨ ((handle l b a).2 = Blocks
     ∧ closed (incoming l) = false
     ∧ incoming_cap <= len (buf (incoming l))).
Proof.
  unfold handle, handleUnconnectedPing, handleOpenConnectionRequest1,
    handleOpenConnectionRequest2, conn_WriteTo, incoming_send.
  repeat first [case_match | case_bool_decide]; simplify_eq; cbn in *;
    first [ left; eexists; reflexivity
          | right; left; split; [eexists; reflexivity | assumption]
          | right; right; repeat split; [assumption | lia] ].
Qed.

(** X17. No datagram ends the read loop. While the queue is open, a round
    on a datagram goes on to the next round, whatever the datagram and
    whatever error its handling gives, or it blocks, and then the queue
    is full; the queue stays open. *)
Theorem listen_round_goes_on (l : Listener) (d : list byte) (a : UDPAddr) :
  closed (incoming l) = false ->
  ((listen_round l (Some (d, a))).2 = Returns true
   ∨ ((listen_round l (Some (d, a))).2 = Blocks
      ∧ incoming_cap <= len (buf (incoming l))))
  ∧ closed (incoming (listen_round l (Some (d, a))).1) = false.
Proof.
  intros Hopen. unfold listen_round.
  destruct (handle_keeps_config l (take 1500 d) a) as (_ & _ & Hcl).
  destruct (handle_outcome l (take 1500 d) a)
    as [[err Hr] | [[[msg Hr] Hclosed] | (Hr & _ & Hfull)]].
  - destruct (handle l (take 1500 d) a) as [l' r]. cbn in *. subst r.
    destruct err; cbn; rewrite Hcl, Hopen; auto.
  - congruence.
  - destruct (handle l (take 1500 d) a) as [l' r]. cbn in *. subst r.
    cbn. rewrite Hcl, Hopen. auto.
Qed.

(** X18. The read buffer bounds what a peer can negotiate: a Request1 of
    any length that is accepted, and whose reply is written, is answered
    with an MTU of the length of the datagram plus 28, and at most
    1500 + 28. *)
Theorem listen_round_request1_mtu
    (l : Listener) (b : list byte) (a : UDPAddr) (packet : openConnectionRequest1.t) :
  connections l !! UDPAddr_String a = None ->
  read_openConnectionRequest1 (take 1499 b) = Some packet ->
  openConnectionRequest1.Protocol packet = protocol l ->
  let mtu := Z.min (len (idOpenConnectionRequest1 :: b)) 1500 + 28 in
  let out := idOpenConnectionReply1
               :: write_openConnectionReply1
                    {| openConnectionReply1.Magic := magic;
                       openConnectionReply1.ServerGUID := id l;
                       openConnectionReply1.MTUSize := mtu |} in
  WriteTo_err (trace l) out a = None ->
  listen_round l (Some (idOpenConnectionRequest1 :: b, a))
  = (emit (EvWriteTo out a) l, Returns true)
  ∧ mtu <= 1528.
Proof.
  intros Hnone Hread Hproto mtu out Hwrite.
  split; [| subst mtu; lia].
  unfold listen_round.
  change (take 1500 (idOpenConnectionRequest1 :: b))
    with (idOpenConnectionRequest1 :: take 1499 b).
  rewrite handle_request1 by exact Hnone.
  rewrite (handleOpenConnectionRequest1_accepts l (take 1499 b) a packet Hread Hproto).
  cbv zeta.
  assert (Hmtu : int16 (int16 (len (take 1499 b) + 1) + 28) = mtu).
  { subst mtu. rewrite len_cons. unfold len. rewrite length_take.
    rewrite (int16_small (Z.of_nat (1499 `min` length b) + 1)) by lia.
    rewrite int16_small by lia. lia. }
  rewrite Hmtu. fold out. rewrite Hwrite. reflexivity.
Qed.

End ShutdownAll.

(** ** Big-endian integers *)

Lemma Z_of_byte_of_Z (n : Z) : Z_of_byte (byte_of_Z n) = n mod 256.
Proof.
  unfold Z_of_byte, byte_of_Z.
  assert (Hn : 0 <= n mod 256 < 256) by (apply Z.mod_pos_bound; lia).
  destruct (Byte.of_N (Z.to_N (n mod 256))) as [b |] eqn:E.
  - apply Byte.to_of_N in E. rewrite E. apply Z2N.id. lia.
  - apply Byte.of_N_None_iff in E. lia.
Qed.

Lemma BigEndian_put_fold (k : nat) (z acc : Z) :
  fold_left (λ acc b, acc * 256 + Z_of_byte b) (BigEndian_put k z) acc
  = acc * 256 ^ Z.of_nat k + z mod 256 ^ Z.of_nat k.
Proof.
  revert acc. induction k as [| k IH]; intros acc.
  - cbn. rewrite Z.mod_1_r. lia.
  - cbn [BigEndian_put fold_left]. rewrite IH, Z_of_byte_of_Z.
    rewrite Z.shiftr_div_pow2 by lia.
    replace (2 ^ (8 * Z.of_nat k)) with (256 ^ Z.of_nat k)
      by (change 256 with (2 ^ 8); rewrite <- Z.pow_mul_r by lia; reflexivity).
    rewrite Nat2Z.inj_succ, Z.pow_succ_r by lia.
    assert (Hp : 0 < 256 ^ Z.of_nat k) by (apply Z.pow_pos_nonneg; lia).
    rewrite (Z.mul_comm 256 (256 ^ Z.of_nat k)).
    rewrite (Z.rem_mul_r z (256 ^ Z.of_nat k) 256) by lia.
    lia.
Qed.

(** What is written for an integer in [k] bytes reads back as that
    integer modulo [256 ^ k]. *)
Lemma BigEndian_uint_put (k : nat) (z : Z) :
  BigEndian_uint (BigEndian_put k z) = z mod 256 ^ Z.of_nat k.
Proof. unfold BigEndian_uint. rewrite BigEndian_put_fold. lia. Qed.

(** ** The life of a listener *)

Section LifeAll.
Context {pkg : Package} {env : Environment}.

(** What handling one datagram does to the table and to the queue. *)
Lemma handle_registration (l : Listener) (b : list byte) (a : UDPAddr) :
  (connections (handle l b a).1 = connections l
   ∧ incoming (handle l b a).1 = incoming l)
  ∨ (connections l !! UDPAddr_String a = None
     ∧ ∃ c : Conn,
         addr c = a
         ∧ connections (handle l b a).1 = <[UDPAddr_String a := c]> (connections l)
         ∧ (incoming (handle l b a).1 = incoming l
            ∨ incoming (handle l b a).1 = mkChan (buf (incoming l) ++ [c]) false)).
Proof.
  unfold handle, handleUnconnectedPing, handleOpenConnectionRequest1,
    handleOpenConnectionRequest2, conn_WriteTo, incoming_send.
  repeat first [case_match | case_bool_decide]; simplify_eq; cbn; auto;
    right; (split; [reflexivity |]); eexists (newConn a _ _);
    (split; [reflexivity |]); (split; [reflexivity |]); auto.
Qed.

Lemma well_formed_handle (rnd : Z) (l : Listener) (b : list byte) (a : UDPAddr) :
  well_formed rnd l -> well_formed rnd (handle l b a).1.
Proof.
  intros (Hid & Hp & Hpong & Hnd & Hq & Hw).
  destruct (handle_keeps_config l b a) as ((_ & Hid' & Hp' & Hpong' & _) & Hw' & _).
  unfold well_formed, queue_registered. rewrite Hid', Hp', Hpong', Hw'.
  split; [exact Hid |]. split; [exact Hp |]. split; [exact Hpong |].
  destruct (handle_registration l b a)
    as [[-> ->] | (Hnone & c & Hc & -> & Hinc)]; [auto |].
  assert (Hfresh : ∀ c', connections l !! UDPAddr_String (addr c') = Some c' ->
                         UDPAddr_String (addr c') ≠ UDPAddr_String a).
  { intros c' Hc' E. rewrite E, Hnone in Hc'. discriminate. }
  assert (Hcq : c ∉ buf (incoming l)).
  { intros Hin. apply (Hfresh c (Hq c Hin)). rewrite Hc. reflexivity. }
  assert (Hcw : c ∉ watchers l).
  { intros Hin. apply (Hfresh c (proj1 (Hw c Hin))). rewrite Hc. reflexivity. }
  destruct Hinc as [-> | ->]; cbn.
  - split; [exact Hnd |]. split.
    + intros c' Hin. rewrite lookup_insert_ne by (apply not_eq_sym, Hfresh, Hq, Hin).
      apply Hq, Hin.
    + intros w Hin. destruct (Hw w Hin) as [Hentry Hout]. split; [| exact Hout].
      rewrite lookup_insert_ne by (apply not_eq_sym, Hfresh, Hentry). exact Hentry.
  - split; [apply NoDup_app; repeat split;
            [exact Hnd | intros x Hx Hx'; apply list_elem_of_singleton in Hx';
                         subst x; exact (Hcq Hx)
             | apply NoDup_singleton] |].
    split.
    + intros c' Hin. apply elem_of_app in Hin as [Hin | Hin].
      * rewrite lookup_insert_ne by (apply not_eq_sym, Hfresh, Hq, Hin).
        apply Hq, Hin.
      * apply list_elem_of_singleton in Hin. subst c'. rewrite Hc.
        apply lookup_insert_eq.
    + intros w Hin. destruct (Hw w Hin) as [Hentry Hout]. split.
      * rewrite lookup_insert_ne by (apply not_eq_sym, Hfresh, Hentry). exact Hentry.
      * rewrite elem_of_app, list_elem_of_singleton. intros [Hin' | ->]; auto.
Qed.

Lemma well_formed_Accept (rnd : Z) (l : Listener) (sched : list selectEnv) :
  well_formed rnd l -> well_formed rnd (Accept l sched).1.
Proof.
  intros (Hid & Hp & Hpong & Hnd & Hq & Hw). unfold Accept.
  destruct (accept_from_shape (buf (incoming l)) sched l)
    as (_ & (_ & Hid' & Hp' & Hpong' & _) & pre & mid & Hbuf & _ & Hcase).
  pose proof (accept_from_connections (buf (incoming l)) sched l) as Hconn.
  unfold well_formed, queue_registered. rewrite Hid', Hp', Hpong', Hconn.
  set (l' := (accept_from (buf (incoming l)) sched l).1) in *.
  split; [exact Hid |]. split; [exact Hp |]. split; [exact Hpong |].
  rewrite Hbuf in Hnd.
  apply NoDup_app in Hnd as (_ & _ & Hnd).
  apply NoDup_app in Hnd as (_ & Hdisj & Hnd').
  assert (Hsub : ∀ c, c ∈ buf (incoming l') -> c ∈ buf (incoming l)).
  { intros c Hin. rewrite Hbuf, !elem_of_app. auto. }
  split; [exact Hnd' |]. split; [intros c Hin; apply Hq, Hsub, Hin |].
  destruct Hcase as [(c & -> & _ & Hw' & _) | (_ & Hw' & _)]; rewrite Hw'.
  - intros w Hin. apply elem_of_app in Hin as [Hin | Hin].
    + destruct (Hw w Hin) as [Hentry Hout]. split; [exact Hentry |].
      intros Hin'. exact (Hout (Hsub w Hin')).
    + apply list_elem_of_singleton in Hin. subst w. split.
      * apply Hq. rewrite Hbuf, !elem_of_app, list_elem_of_singleton. auto.
      * apply Hdisj. apply list_elem_of_singleton. reflexivity.
  - intros w Hin. destruct (Hw w Hin) as [Hentry Hout]. split; [exact Hentry |].
    intros Hin'. exact (Hout (Hsub w Hin')).
Qed.

Lemma well_formed_connClosed (rnd : Z) (l : Listener) (c : Conn) :
  well_formed rnd l -> well_formed rnd (connClosed c l).
Proof.
  intros (Hid & Hp & Hpong & Hnd & Hq & Hw). unfold connClosed.
  case_bool_decide as Hc;
    [| exact (conj Hid (conj Hp (conj Hpong (conj Hnd (conj Hq Hw)))))].
  destruct (Hw c Hc) as [Hentry Hout].
  assert (Hkey : ∀ c', connections l !! UDPAddr_String (addr c') = Some c' ->
                       c' ≠ c -> UDPAddr_String (addr c) ≠ UDPAddr_String (addr c')).
  { intros c' Hc' Hne E. rewrite E, Hc' in Hentry. congruence. }
  unfold well_formed, queue_registered. cbn.
  split; [exact Hid |]. split; [exact Hp |]. split; [exact Hpong |].
  split; [exact Hnd |]. split.
  - intros c' Hin. rewrite lookup_delete_ne; [apply Hq, Hin |].
    apply Hkey; [apply Hq, Hin | intros ->; exact (Hout Hin)].
  - intros w Hin. apply list_elem_of_filter in Hin as [Hne Hin].
    destruct (Hw w Hin) as [Hentry' Hout']. split; [| exact Hout'].
    rewrite lookup_delete_ne; [exact Hentry' |]. apply Hkey; assumption.
Qed.

Lemma well_formed_PongData (rnd : Z) (l : Listener) (data : list byte) :
  well_formed rnd l -> well_formed rnd (PongData l data).1.
Proof.
  intros Hwf. unfold PongData.
  destruct (Z.gtb_spec (len data) MaxInt16) as [Hgt | Hle]; [exact Hwf |].
  destruct Hwf as (Hid & Hp & _ & Hrest).
  exact (conj Hid (conj Hp (conj Hle Hrest))).
Qed.

Lemma well_formed_step (rnd : Z) (l : Listener) (o : op) :
  well_formed rnd l -> well_formed rnd (step l o).1.
Proof.
  intros Hwf. destruct o as [rd | p | data | ping | sched | c |]; cbn [step fst].
  - destruct rd as [[d a] |]; cbn [listen_round].
    + pose proof (well_formed_handle rnd l (take 1500 d) a Hwf) as Hh.
      destruct (handle l (take 1500 d) a) as [l' [[err |] | msg |]]; exact Hh.
    + exact Hwf.
  - exact Hwf.
  - apply well_formed_PongData, Hwf.
  - unfold HijackPong_tick.
    destruct (ping (Protocol l)) as [data |]; [| exact Hwf].
    destruct (slice_to data 4) as [head |]; [| exact Hwf].
    case_bool_decide; apply well_formed_PongData, Hwf.
  - apply well_formed_Accept, Hwf.
  - apply well_formed_connClosed, Hwf.
  - destruct Hwf as (Hid & Hp & Hpong & Hnd & Hq & Hw).
    destruct (Close_state l) as (_ & _ & _ & Hinc & Hconn & Hid' & Hpong' & Hp' & Hw').
    unfold well_formed, queue_registered.
    rewrite Hinc, Hconn, Hid', Hpong', Hp', Hw'.
    exact (conj Hid (conj Hp (conj Hpong (conj Hnd (conj Hq Hw))))).
Qed.

Lemma well_formed_Listen (rnd : Z) : well_formed rnd (Listen rnd).
Proof.
  unfold well_formed, queue_registered. cbn.
  split; [reflexivity |]. split; [reflexivity |].
  split; [unfold len, MaxInt16; cbn; lia |].
  split; [apply NoDup_nil_2 |].
  split; intros c Hin; apply elem_of_nil in Hin; contradiction.
Qed.

(** Every operation keeps a listener well formed. *)
Lemma well_formed_run (rnd : Z) (l : Listener) (ops : list op) :
  well_formed rnd l -> well_formed rnd (run l ops).
Proof.
  revert l. induction ops as [| o ops IH]; intros l Hwf; cbn [run]; [exact Hwf |].
  pose proof (well_formed_step rnd l o Hwf) as Hs.
  destruct (step l o) as [l' ok]. destruct ok; [apply IH |]; exact Hs.
Qed.

(** X19. The ID of a listener is the one [Listen] drew, all its life, and
    so is the protocol the handshake compares with: whatever the
    application writes to [Protocol], and whatever else happens, it is
    [MinecraftProtocol]. *)
Theorem run_keeps_ID_and_protocol (rnd : Z) (ops : list op) :
  ID (run (Listen rnd) ops) = rnd
  ∧ protocol (run (Listen rnd) ops) = MinecraftProtocol.
Proof.
  destruct (well_formed_run rnd (Listen rnd) ops (well_formed_Listen rnd))
    as (Hid & Hp & _).
  split; assumption.
Qed.

(** X20. Every session that waits in [incoming] is in the table, under
    its own address, and no session waits twice: what [Accept] can
    return is registered. *)
Theorem run_queue_registered (rnd : Z) (ops : list op) :
  queue_registered (run (Listen rnd) ops)
  ∧ NoDup (buf (incoming (run (Listen rnd) ops))).
Proof.
  destruct (well_formed_run rnd (Listen rnd) ops (well_formed_Listen rnd))
    as (_ & _ & _ & Hnd & Hq & _).
  split; assumption.
Qed.

(** X21. The pong payload of a listener never exceeds 32767 bytes, and a
    Ping is always answered with the length of the payload in front of
    it: the two bytes written read back as the length. *)
Theorem run_pong_length_field
    (rnd : Z) (ops : list op) (b : list byte) (a : UDPAddr)
    (packet : unconnectedPing.t) :
  let l := run (Listen rnd) ops in
  connections l !! UDPAddr_String a = None ->
  read_unconnectedPing b = Some packet ->
  let response :=
    {| unconnectedPong.Magic := magic;
       unconnectedPong.ServerGUID := rnd;
       unconnectedPong.SendTimestamp := unconnectedPing.SendTimestamp packet |} in
  let field := BigEndian_put 2 (len (pongData l)) in
  len (pongData l) <= 32767
  ∧ trace (handle l (idUnconnectedPing :: b) a).1
    = trace l ++ [EvWriteTo (idUnconnectedPong :: write_unconnectedPong response
                               ++ field ++ pongData l) a]
  ∧ BigEndian_uint field = len (pongData l).
Proof.
  intros l Hnone Hread response field.
  destruct (well_formed_run rnd (Listen rnd) ops (well_formed_Listen rnd))
    as (Hid & Hp & Hpong & _).
  fold l in Hid, Hp, Hpong. unfold MaxInt16 in Hpong.
  pose proof (len_nonneg (pongData l)) as Hlen.
  split; [exact Hpong |]. split.
  - rewrite handle_ping by exact Hnone.
    unfold handleUnconnectedPing, conn_WriteTo. rewrite Hread.
    rewrite bool_decide_eq_true_2 by exact Hp.
    rewrite int16_small by lia. rewrite Hid.
    subst field response.
    destruct (WriteTo_err _ _ _); cbn; rewrite <- app_assoc; reflexivity.
  - subst field. rewrite BigEndian_uint_put.
    apply Z.mod_small. change (256 ^ Z.of_nat 2) with 65536. lia.
Qed.

End LifeAll.

(** ** The updater, in general *)

Lemma set_pongData_same (l : Listener) : set_pongData (pongData l) l = l.
Proof. destruct l. reflexivity. Qed.

(** X22. A round of the updater writes the pong payload and nothing else
    of the listener, whatever the ping returns; and a ping that fails
    leaves the payload as it is. *)
Theorem HijackPong_tick_writes_pongData_only
    (l : Listener) (ping : byte -> option slice) :
  (HijackPong_tick l ping).1 = set_pongData (pongData (HijackPong_tick l ping).1) l
  ∧ (ping (Protocol l) = None -> HijackPong_tick l ping = (l, Returns tt)).
Proof.
  unfold HijackPong_tick, PongData.
  split.
  - repeat first [case_match | case_bool_decide]; simplify_eq; cbn;
      rewrite ?set_pongData_same; reflexivity.
  - intros ->. reflexivity.
Qed.

(** The first field of a split agrees with the bytes, as far as these
    have no separator. *)
Lemma bytes_Split_head (n : nat) (s : list byte) (sep : byte) :
  sep ∉ take n s ->
  ∃ (f : list byte) (fs : list (list byte)),
    bytes_Split s sep = f :: fs ∧ take n f = take n s.
Proof.
  revert n. induction s as [| c s IH]; intros n Hsep.
  - exists [], []. split; reflexivity.
  - destruct n as [| n].
    + destruct (bytes_Split (c :: s) sep) as [| f fs] eqn:E.
      * exfalso. exact (bytes_Split_nonempty _ _ E).
      * exists f, fs. split; reflexivity.
    + cbn in Hsep. rewrite not_elem_of_cons in Hsep. destruct Hsep as [Hc Hsep].
      destruct (IH n Hsep) as (f & fs & E & Ht).
      exists (c :: f), fs. cbn. rewrite bool_decide_eq_false_2 by congruence.
      rewrite E. split; [reflexivity |]. rewrite Ht. reflexivity.
Qed.

(** A rewritten payload begins as the payload it is made of begins, up to
    the first separator: the marker stays. *)
Lemma rewritten_keeps_marker (s : list byte) (i : Z) :
  take 4 s = bytes_of "MCPE" -> take 4 (rewritten s i) = bytes_of "MCPE".
Proof.
  intros Hm.
  destruct (bytes_Split_head 4 s ";"%byte) as (f & fs & E & Ht).
  { rewrite Hm. apply (bool_decide_unpack (";"%byte ∉ bytes_of "MCPE")).
    vm_compute. exact I. }
  unfold rewritten. rewrite E. cbn [length app take].
  rewrite Hm in Ht.
  assert (Hf : (4 <= length f)%nat).
  { apply (f_equal length) in Ht. rewrite length_take in Ht.
    change (length (bytes_of "MCPE")) with 4%nat in Ht. lia. }
  destruct (take 5 (fs ++ replicate (9 - S (length fs)) [])
              ++ [strconv_Itoa (to_int i); bytes_of "Proxy"; []]) as [| g gs] eqn:Eg.
  { apply app_eq_nil in Eg as [_ Eg]. discriminate. }
  change (bytes_Join (f :: g :: gs) [";"%byte])
    with (f ++ ";"%byte :: bytes_Join (g :: gs) [";"%byte]).
  rewrite take_app_le by exact Hf. exact Ht.
Qed.

(** Rewriting a rewritten payload gives what rewriting the first payload
    gives: the six fields kept are the same. *)
Lemma rewritten_twice (s : list byte) (i j : Z) :
  rewritten (rewritten s i) j = rewritten s j.
Proof.
  unfold rewritten at 1. rewrite fields_rewritten.
  set (padded := bytes_Split s ";"%byte
                   ++ replicate (9 - length (bytes_Split s ";"%byte)) []).
  assert (Hpad : (9 <= length padded)%nat) by apply length_padded.
  assert (H6 : length (take 6 padded) = 6%nat) by (rewrite length_take; lia).
  rewrite length_app, H6. cbn [length Nat.sub Nat.add replicate].
  rewrite app_nil_r. rewrite take_app_le by lia.
  rewrite take_ge by lia. reflexivity.
Qed.

(** X23. Listeners in a chain. When a listener [l2] hijacks the pong of a
    listener that itself hijacks a server whose payload [data] has the
    marker, [l2] stores the first six fields of [data], then its own ID,
    [Proxy] and the empty field: the ID of the listener in the middle is
    replaced, and nothing accumulates. *)
Theorem HijackPong_chain
    (l1 l2 : Listener) (ping : byte -> option slice) (data : slice) :
  ping (Protocol l1) = Some data ->
  take 4 (elems data) = bytes_of "MCPE" ->
  len (elems data) + 34 <= MaxInt16 ->
  let relayed := pongData (HijackPong_tick l1 ping).1 in
  relayed = rewritten (elems data) (id l1)
  ∧ HijackPong_tick l2 (λ _, Some (mkSlice relayed []))
    = (set_pongData (rewritten (elems data) (id l2)) l2, Returns tt).
Proof.
  intros Hping Hm Hsize relayed.
  assert (Hlen : (4 <= length (elems data))%nat).
  { apply (f_equal length) in Hm. rewrite length_take in Hm.
    change (length (bytes_of "MCPE")) with 4%nat in Hm. lia. }
  pose proof (length_rewritten (elems data) (id l1)) as Hr1.
  assert (E1 : relayed = rewritten (elems data) (id l1)).
  { subst relayed.
    rewrite (HijackPong_tick_classified l1 ping data (take 4 (elems data)) Hping)
      by (apply slice_to_within; exact Hlen).
    rewrite bool_decide_eq_true_2 by exact Hm.
    rewrite PongData_stores by (unfold len, MaxInt16 in *; lia). reflexivity. }
  split; [exact E1 |].
  clearbody relayed. subst relayed.
  pose proof (rewritten_keeps_marker (elems data) (id l1) Hm) as Hm'.
  assert (Hlen' : (4 <= length (rewritten (elems data) (id l1)))%nat).
  { apply (f_equal length) in Hm'. rewrite length_take in Hm'.
    change (length (bytes_of "MCPE")) with 4%nat in Hm'. lia. }
  rewrite (HijackPong_tick_classified l2
             (λ _, Some (mkSlice (rewritten (elems data) (id l1)) []))
             (mkSlice (rewritten (elems data) (id l1)) [])
             (take 4 (rewritten (elems data) (id l1))) eq_refl)
    by (apply slice_to_within; exact Hlen').
  rewrite bool_decide_eq_true_2 by exact Hm'.
  cbn [elems]. rewrite rewritten_twice.
  pose proof (length_rewritten (elems data) (id l2)) as Hr3.
  apply PongData_stores. unfold len, MaxInt16 in *. lia.
Qed.

(** X24. The updater does not guard [PongData]: when the payload fetched
    has no marker and is longer than 32767 bytes, the round panics, the
    payload of the listener is as before, and the goroutine makes no
    further round. *)
Theorem HijackPong_oversized_payload_panics
    (l : Listener) (ping : byte -> option slice) (data : slice)
    (evs : list hijackEvent) :
  ping (Protocol l) = Some data ->
  take 4 (elems data) ≠ bytes_of "MCPE" ->
  MaxInt16 < len (elems data) ->
  ∃ msg : string,
    HijackPong_tick l ping = (l, Panics msg)
    ∧ HijackPong_loop l (tickerC ping :: evs) = (l, Panics msg).
Proof.
  intros Hping Hm Hsize.
  assert (Hlen : (4 <= length (elems data))%nat)
    by (unfold len, MaxInt16 in Hsize; lia).
  assert (Htick : HijackPong_tick l ping
                  = (l, Panics "error setting pong data: pong data must not be longer than 32767")).
  { rewrite (HijackPong_tick_classified l ping data (take 4 (elems data)) Hping)
      by (apply slice_to_within; exact Hlen).
    rewrite bool_decide_eq_false_2 by exact Hm.
    unfold PongData. destruct (Z.gtb_spec (len (elems data)) MaxInt16); [reflexivity | lia]. }
  eexists. split; [exact Htick |].
  cbn [HijackPong_loop]. rewrite Htick. reflexivity.
Qed.

(** X25. The ID in a rewritten payload reads back. For a listener whose
    ID is a value of [rand.Int63] and a payload with the marker, field 7
    of the payload stored is a string of decimal digits whose value is
    the ID. *)
Theorem HijackPong_ID_field_reads_back
    (l : Listener) (ping : byte -> option slice) (data : slice) :
  ping (Protocol l) = Some data ->
  take 4 (elems data) = bytes_of "MCPE" ->
  len (elems data) + 34 <= MaxInt16 ->
  0 <= id l < 2 ^ 63 ->
  ∃ field : list byte,
    bytes_Split (pongData (HijackPong_tick l ping).1) ";"%byte !! 6%nat = Some field
    ∧ decimal_value field = ID l.
Proof.
  intros Hping Hm Hsize Hid.
  assert (Hlen : (4 <= length (elems data))%nat).
  { apply (f_equal length) in Hm. rewrite length_take in Hm.
    change (length (bytes_of "MCPE")) with 4%nat in Hm. lia. }
  pose proof (length_rewritten (elems data) (id l)) as Hr.
  rewrite (HijackPong_tick_classified l ping data (take 4 (elems data)) Hping)
    by (apply slice_to_within; exact Hlen).
  rewrite bool_decide_eq_true_2 by exact Hm.
  rewrite PongData_stores by (unfold len, MaxInt16 in *; lia).
  cbn [fst pongData set_pongData]. rewrite fields_rewritten.
  exists (strconv_Itoa (to_int (id l))). split.
  - rewrite lookup_app_r by (rewrite length_take; pose proof (length_padded (elems data)); lia).
    rewrite length_take.
    pose proof (length_padded (elems data)) as Hp.
    replace (6 `min` _)%nat with 6%nat by lia. reflexivity.
  - apply strconv_Itoa_to_int. exact Hid.
Qed.

(** ** The clock *)

(** X26. [timestamp] gives whole seconds: for a clock at or after the
    epoch, the second in which the clock is. *)
Theorem timestamp_is_in_seconds (unixNano : Z) :
  0 <= unixNano ->
  timestamp unixNano * 1000000000 <= unixNano < (timestamp unixNano + 1) * 1000000000
  ∧ timestamp unixNano = unixNano / 1000000 / 1000.
Proof.
  intros Hn. unfold timestamp.
  rewrite Z.quot_div_nonneg by lia.
  split.
  - pose proof (Z.div_mod unixNano 1000000000).
    pose proof (Z.mod_pos_bound unixNano 1000000000). lia.
  - rewrite Z.div_div by lia. reflexivity.
Qed.

(** * The listener at work

    The theorems above, applied to the package and the environment of
    [RakNet] and to concrete datagrams. *)

Section Runs.
Local Existing Instance RakNet.package.
Local Existing Instance RakNet.quiet.

(** Request1, for the protocol of the listener, 18 bytes long: the reply
    advertises 18 + 28 = 46. *)
Lemma request1_reply_mtu_witness :
  handle (Listen 42) (RakNet.request1 x09) RakNet.client
  = (emit (EvWriteTo
             (x06 :: RakNet.put_openConnectionReply1
                       (openConnectionReply1.mk RakNet.magic_bytes 42 46))
             RakNet.client)
          (Listen 42),
     Returns None).
Proof.
  destruct (request1_reply_mtu (Listen 42) (RakNet.request1 x09)
              (RakNet.magic_bytes ++ [x09]) RakNet.client (openConnectionRequest1.mk x09))
    as [H _].
  - vm_compute. reflexivity.
  - reflexivity.
  - vm_compute. discriminate.
  - reflexivity.
  - reflexivity.
  - exact H.
Defined.

(** C1 as the spec states it fails on this datagram: it is 18 bytes long,
    the reply advertises 46, and the reply that would advertise
    18 + 1 + 28 = 47 is another datagram. *)
Lemma request1_mtu_is_not_length_plus_29 :
  len (RakNet.request1 x09) = 18
  ∧ handle (Listen 42) (RakNet.request1 x09) RakNet.client
    = (emit (EvWriteTo
               (x06 :: RakNet.put_openConnectionReply1
                         (openConnectionReply1.mk RakNet.magic_bytes 42 46))
               RakNet.client)
            (Listen 42),
       Returns None)
  ∧ x06 :: RakNet.put_openConnectionReply1
             (openConnectionReply1.mk RakNet.magic_bytes 42 46)
    ≠ x06 :: RakNet.put_openConnectionReply1
               (openConnectionReply1.mk RakNet.magic_bytes 42
                  (len (RakNet.request1 x09) + 1 + 28)).
Proof.
  split; [reflexivity |]. split; [vm_compute; reflexivity |].
  vm_compute. discriminate.
Qed.

(** The application configures version 8 on a listener made by [Listen]:
    a Request1 for version 8 is rejected, a Request1 for version 9
    ([MinecraftProtocol]) is answered by a Reply1. *)
Lemma configured_Protocol_not_compared_witness :
  Protocol (set_Protocol x08 (Listen 42)) = x08
  ∧ (∃ msg : string,
       handle (set_Protocol x08 (Listen 42)) (RakNet.request1 x08) RakNet.client
       = (emit (EvWriteTo
                  (x19 :: RakNet.put_incompatibleProtocolVersion
                            (incompatibleProtocolVersion.mk RakNet.magic_bytes 42 x09))
                  RakNet.client)
               (set_Protocol x08 (Listen 42)),
          Returns (Some msg)))
  ∧ handle (set_Protocol x08 (Listen 42)) (RakNet.request1 x09) RakNet.client
    = (emit (EvWriteTo
               (x06 :: RakNet.put_openConnectionReply1
                         (openConnectionReply1.mk RakNet.magic_bytes 42 46))
               RakNet.client)
            (set_Protocol x08 (Listen 42)),
       Returns None).
Proof.
  destruct (configured_Protocol_not_compared 42 x08
              (RakNet.magic_bytes ++ [x08]) (RakNet.magic_bytes ++ [x09]) RakNet.client
              (openConnectionRequest1.mk x08) (openConnectionRequest1.mk x09))
    as (H1 & H2 & H3).
  - discriminate.
  - reflexivity.
  - reflexivity.
  - reflexivity.
  - reflexivity.
  - split; [exact H1 |]. split; [exact H2 | exact H3].
Defined.

(** A datagram with the packet ID of a Request1, from the address of the
    session, goes to the session. *)
Lemma handle_forwards_to_session_witness :
  trace (handle RakNet.one_session (RakNet.request1 x09) RakNet.client).1
  = trace RakNet.one_session
      ++ [EvConnReceive RakNet.client_session (RakNet.request1 x09)]
  ∧ connections (handle RakNet.one_session (RakNet.request1 x09) RakNet.client).1
    = connections RakNet.one_session.
Proof.
  assert (Hsession : connections RakNet.one_session !! UDPAddr_String RakNet.client
                     = Some RakNet.client_session) by (vm_compute; reflexivity).
  destruct (handle_forwards_to_session RakNet.one_session (RakNet.request1 x09)
              RakNet.client RakNet.client_session Hsession)
    as (_ & Htrace & _ & Htable & _).
  split; [exact Htrace | exact Htable].
Defined.

(** A Ping with timestamp 1234 to a listener whose payload is [hello]. *)
Lemma ping_is_answered_by_pong_witness :
  trace (handle (set_pongData (bytes_of "hello") (Listen 42))
           (RakNet.ping 1234) RakNet.client).1
  = [EvWriteTo
       (x1c :: RakNet.put_unconnectedPong
                 (unconnectedPong.mk RakNet.magic_bytes 42 1234)
            ++ [x00; x05] ++ bytes_of "hello")
       RakNet.client].
Proof.
  destruct (ping_is_answered_by_pong (set_pongData (bytes_of "hello") (Listen 42))
              (RakNet.ping 1234) (BigEndian_put 8 1234) RakNet.client
              (unconnectedPing.mk 1234))
    as [H _].
  - vm_compute. reflexivity.
  - reflexivity.
  - vm_compute. reflexivity.
  - exact H.
Defined.

(** The limit of [PongData], on both sides. *)
Lemma PongData_limit :
  PongData (Listen 42) (replicate (Z.to_nat 32767) x00)
  = (set_pongData (replicate (Z.to_nat 32767) x00) (Listen 42), Returns tt)
  ∧ ∃ msg : string, PongData (Listen 42) (replicate (Z.to_nat 32768) x00) = (Listen 42, Panics msg).
Proof.
  split.
  - apply (PongData_panics_iff_too_long (Listen 42) (replicate (Z.to_nat 32767) x00)).
    unfold len. rewrite length_replicate. vm_compute. discriminate.
  - apply (PongData_panics_iff_too_long (Listen 42) (replicate (Z.to_nat 32768) x00)).
    unfold len. rewrite length_replicate. reflexivity.
Defined.

(** Shutdown of a listener with one session, in an environment where
    closing a session fails: every call is made, and [Close] returns
    [nil]. *)
Lemma Close_drops_session_errors_witness :
  @Conn_Close_err RakNet.failing_sessions
    (trace RakNet.one_session ++ [EvCancel]) RakNet.client_session
  = Some "use of closed network connection"%string
  ∧ (Close (env := RakNet.failing_sessions) RakNet.one_session).2 = None
  ∧ trace (Close (env := RakNet.failing_sessions) RakNet.one_session).1
    = trace RakNet.one_session ++ [EvCancel; EvConnClose RakNet.client_session; EvSocketClose].
Proof.
  destruct (Close_drops_session_errors (env := RakNet.failing_sessions) RakNet.one_session)
    as (Herr & Htrace & _).
  split; [reflexivity |]. split.
  - rewrite Herr. reflexivity.
  - rewrite Htrace. vm_compute. reflexivity.
Defined.

(** The first candidate times out, the second completes: [Accept]
    returns the second, and the table keeps the entry of the first, also
    after the closed signal of the first has fired. *)
Lemma Accept_timeout_leaves_table_entry_witness :
  let sched := [mkSelectEnv false false false; mkSelectEnv false true false] in
  (Accept RakNet.two_sessions sched).2 = Returns (Some RakNet.client2_session, None)
  ∧ trace (Accept RakNet.two_sessions sched).1
    = trace RakNet.two_sessions ++ [EvConnClose RakNet.client_session]
  ∧ connections (connClosed RakNet.client_session (Accept RakNet.two_sessions sched).1)
      !! UDPAddr_String RakNet.client
    = Some RakNet.client_session.
Proof.
  cbv zeta.
  destruct (Accept_timeout_leaves_table_entry RakNet.two_sessions RakNet.client_session
              [RakNet.client2_session] (mkSelectEnv false false false)
              [mkSelectEnv false true false])
    as (_ & _ & Hentry).
  - vm_compute. reflexivity.
  - reflexivity.
  - reflexivity.
  - reflexivity.
  - vm_compute. reflexivity.
  - apply not_elem_of_nil.
  - evaluate (RakNet.client_session ∉ [RakNet.client2_session]).
  - split; [vm_compute; reflexivity |].
    split; [vm_compute; reflexivity | exact Hentry].
Defined.

(** The handshake of [RakNet.client] with a fresh listener, and an
    [Accept] on which the session completes. *)
Lemma full_handshake_registers_one_session_witness :
  let l1 := (handle (Listen 42) (RakNet.request1 x09) RakNet.client).1 in
  let l2 := (handle l1 RakNet.request2 RakNet.client).1 in
  connections l2 = {[ UDPAddr_String RakNet.client := RakNet.client_session ]}
  ∧ buf (incoming l2) = [RakNet.client_session]
  ∧ (Accept l2 [mkSelectEnv false true false]).2
    = Returns (Some RakNet.client_session, None)
  ∧ buf (incoming (Accept l2 [mkSelectEnv false true false]).1) = [].
Proof.
  cbv zeta.
  destruct (full_handshake_registers_one_session (Listen 42)
              (RakNet.magic_bytes ++ [x09])
              (RakNet.magic_bytes ++ [x04; x7f; x00; x00; x01; x4a; xbc]
                 ++ BigEndian_put 2 1492 ++ BigEndian_put 8 77)
              (RakNet.magic_bytes ++ BigEndian_put 8 42
                 ++ (x04 :: IP RakNet.client ++ BigEndian_put 2 19132)
                 ++ BigEndian_put 2 1492 ++ [x00])
              RakNet.client (openConnectionRequest1.mk x09)
              (openConnectionRequest2.mk 1492 77))
    as (_ & _ & _ & Htable & _ & _ & Hqueue & _ & Haccept).
  - vm_compute. reflexivity.
  - reflexivity.
  - vm_compute. reflexivity.
  - reflexivity.
  - reflexivity.
  - vm_compute. reflexivity.
  - vm_compute. reflexivity.
  - reflexivity.
  - reflexivity.
  - destruct (Haccept eq_refl (mkSelectEnv false true false) [])
      as (Hbuf & _ & Hr & _).
    split; [exact Htable |]. split; [exact Hqueue |].
    split; [exact Hr | exact Hbuf].
Defined.

(** C5 as stated fails when the client falls silent after the Reply2:
    both replies are written and the session is registered and queued,
    but it does not complete within the ten seconds. [Accept] closes it
    and has nothing to return; the queue is empty, and once the read
    loop has ended [Accept] returns the error of a closed listener. No
    session is delivered for this handshake. *)
Lemma full_handshake_of_silent_client_delivers_nothing :
  let l1 := (handle (Listen 42) (RakNet.request1 x09) RakNet.client).1 in
  let l2 := (handle l1 RakNet.request2 RakNet.client).1 in
  let l3 := (Accept l2 [mkSelectEnv false false false]).1 in
  trace l2
  = [EvWriteTo (x06 :: RakNet.put_openConnectionReply1
                         (openConnectionReply1.mk RakNet.magic_bytes 42 46))
       RakNet.client;
     EvWriteTo (x08 :: RakNet.magic_bytes ++ BigEndian_put 8 42
                  ++ (x04 :: IP RakNet.client ++ BigEndian_put 2 19132)
                  ++ BigEndian_put 2 1492 ++ [x00])
       RakNet.client]
  ∧ buf (incoming l2) = [RakNet.client_session]
  ∧ (Accept l2 [mkSelectEnv false false false]).2 = Blocks
  ∧ trace l3 = trace l2 ++ [EvConnClose RakNet.client_session]
  ∧ buf (incoming l3) = []
  ∧ (Accept (listen_round l3 None).1 [mkSelectEnv false true false]).2
    = Returns (None, Some errListenerClosed).
Proof.
  cbv zeta. repeat split; vm_compute; reflexivity.
Qed.

(** The updater on the upstream payload: nine fields are stored, the last
    three are the ID 42, [Proxy] and the empty field. *)
Lemma HijackPong_tick_stores_witness :
  (HijackPong_tick (Listen 42) (λ _, Some RakNet.upstream)).2 = Returns tt
  ∧ pongData (HijackPong_tick (Listen 42) (λ _, Some RakNet.upstream)).1
    = bytes_of "MCPE;Dedicated Server;390;1.14.60;0;10;42;Proxy;"
  ∧ length (bytes_Split
              (pongData (HijackPong_tick (Listen 42) (λ _, Some RakNet.upstream)).1)
              ";"%byte)
    = 9%nat.
Proof.
  assert (Hlen : (4 <= length (elems RakNet.upstream))%nat) by (vm_compute; lia).
  destruct (HijackPong_tick_stores (Listen 42) (λ _, Some RakNet.upstream)
              RakNet.upstream eq_refl Hlen)
    as (Hr & Hstored & _ & Hfields).
  - vm_compute. discriminate.
  - split; [exact Hr |]. split.
    + rewrite Hstored. vm_compute. reflexivity.
    + destruct Hfields as (H9 & _); [vm_compute; reflexivity | exact H9].
Defined.

(** C9 as stated fails on these two payloads. The first, [MCP], does not
    begin with the marker, but its backing array goes on with [E]: it is
    stored rewritten, not as it is. The second begins with the marker and
    is 32767 bytes long: the rewritten payload is over the limit of
    [PongData], the round panics, and nothing is stored. *)
Lemma HijackPong_tick_stores_fails_outside :
  let short := mkSlice (bytes_of "MCP") (bytes_of "E;x") in
  let long := mkSlice (bytes_of "MCPE" ++ replicate (Z.to_nat 32763) "x"%byte) [] in
  take 4 (elems short) ≠ bytes_of "MCPE"
  ∧ pongData (HijackPong_tick (Listen 42) (λ _, Some short)).1
    = bytes_of "MCP;;;;;;42;Proxy;"
  ∧ pongData (HijackPong_tick (Listen 42) (λ _, Some short)).1 ≠ elems short
  ∧ take 4 (elems long) = bytes_of "MCPE"
  ∧ len (elems long) = 32767
  ∧ (HijackPong_tick (Listen 42) (λ _, Some long)).2
    = Panics "error setting pong data: pong data must not be longer than 32767"
  ∧ pongData (HijackPong_tick (Listen 42) (λ _, Some long)).1 = [].
Proof.
  cbv zeta.
  split; [vm_compute; discriminate |].
  split; [vm_compute; reflexivity |].
  split; [vm_compute; discriminate |].
  repeat split; vm_compute; reflexivity.
Qed.

(** A fetched payload of three bytes with no spare capacity: the round
    panics on the slice. *)
Lemma HijackPong_tick_slice_bounds_witness :
  (HijackPong_tick (Listen 42) (λ _, Some (mkSlice (bytes_of "MCP") []))).2
  = Panics "slice bounds out of range"
  ∧ (HijackPong_tick (Listen 42) (λ _, Some (mkSlice (bytes_of "MCP") []))).1
    = Listen 42.
Proof.
  destruct (HijackPong_tick_slice_bounds (Listen 42)
              (λ _, Some (mkSlice (bytes_of "MCP") []))
              (mkSlice (bytes_of "MCP") []) eq_refl)
    as (Hpanic & Hstate & _).
  split.
  - apply Hpanic. vm_compute. reflexivity.
  - apply Hstate. vm_compute. reflexivity.
Defined.

(** C10 as stated fails on this payload: it is two bytes long, shorter
    than four, and its backing array has six bytes more. The slice
    [data[:4]] is in range, the round does not panic, and the payload is
    stored. *)
Lemma HijackPong_tick_short_payload_with_capacity :
  let data := mkSlice (bytes_of "ab") (replicate 6 x00) in
  len (elems data) = 2
  ∧ cap data = 8
  ∧ slice_to data 4 = Some (bytes_of "ab" ++ [x00; x00])
  ∧ (HijackPong_tick (Listen 42) (λ _, Some data)).2 = Returns tt
  ∧ pongData (HijackPong_tick (Listen 42) (λ _, Some data)).1 = bytes_of "ab"
  ∧ trace (HijackPong_tick (Listen 42) (λ _, Some data)).1 = [].
Proof.
  cbv zeta. repeat split; vm_compute; reflexivity.
Qed.

(** A payload of three bytes whose backing array goes on with [E]: the
    four bytes compared are [MCPE], and the payload is rewritten. *)
Example HijackPong_tick_marker_across_the_end :
  HijackPong_tick (Listen 42) (λ _, Some (mkSlice (bytes_of "MCP") (bytes_of "E;x")))
  = (set_pongData (bytes_of "MCP;;;;;;42;Proxy;") (Listen 42), Returns tt).
Proof. vm_compute. reflexivity. Qed.

(** A ping that fails leaves the payload as it is, and the goroutine ends
    when the context is cancelled. *)
Example HijackPong_loop_run :
  HijackPong_loop (Listen 42)
    [tickerC (λ _, None); tickerC (λ _, Some RakNet.upstream); hijackCtxDone]
  = (set_pongData (bytes_of "MCPE;Dedicated Server;390;1.14.60;0;10;42;Proxy;")
       (Listen 42),
     Returns tt).
Proof. vm_compute. reflexivity. Qed.

(** ** Further runs *)

(** A Request1 cut after one byte of the magic. *)
Lemma handle_undecodable_witness :
  ∃ msg : string,
    handle (Listen 42) [x05; x00] RakNet.client = (Listen 42, Returns (Some msg)).
Proof.
  apply (handle_undecodable (Listen 42) [x05; x00] RakNet.client).
  - vm_compute. reflexivity.
  - right. right. left. exists [x00]. split; reflexivity.
Defined.

(** A datagram of the reliability layer (first byte 0x84) from an address
    without a session is dropped without an error. *)
Lemma handle_unknown_packet_witness :
  (handle (Listen 42) [x84; x00] RakNet.client).1 = Listen 42
  ∧ (handle (Listen 42) [x84; x00] RakNet.client).2 = Returns None.
Proof.
  destruct (handle_unknown_packet (Listen 42) x84 [x00] RakNet.client)
    as (H1 & H2 & _).
  - vm_compute. reflexivity.
  - evaluate (x84 ∉ [x01; x05; x07]).
  - split; [exact H1 |]. apply H2. vm_compute. discriminate.
Defined.

(** A Request1 for version 8 to a fresh listener. *)
Lemma request1_other_version_is_rejected_witness :
  ∃ msg : string,
    handle (Listen 42) (RakNet.request1 x08) RakNet.client
    = (emit (EvWriteTo
               (x19 :: RakNet.put_incompatibleProtocolVersion
                         (incompatibleProtocolVersion.mk RakNet.magic_bytes 42 x09))
               RakNet.client)
            (Listen 42),
       Returns (Some msg)).
Proof.
  destruct (request1_other_version_is_rejected (Listen 42)
              (RakNet.magic_bytes ++ [x08]) RakNet.client
              (openConnectionRequest1.mk x08))
    as (H & _).
  - vm_compute. reflexivity.
  - reflexivity.
  - discriminate.
  - exact H.
Defined.

(** A Request2 as the first datagram a listener gets. *)
Lemma request2_alone_registers_witness :
  connections (handle (Listen 42) RakNet.request2 RakNet.client).1
    !! UDPAddr_String RakNet.client
  = Some RakNet.client_session
  ∧ buf (incoming (handle (Listen 42) RakNet.request2 RakNet.client).1)
    = [RakNet.client_session].
Proof.
  destruct (request2_alone_registers (Listen 42)
              (RakNet.magic_bytes ++ [x04; x7f; x00; x00; x01; x4a; xbc]
                 ++ BigEndian_put 2 1492 ++ BigEndian_put 8 77)
              (RakNet.magic_bytes ++ BigEndian_put 8 42
                 ++ (x04 :: IP RakNet.client ++ BigEndian_put 2 19132)
                 ++ BigEndian_put 2 1492 ++ [x00])
              RakNet.client (openConnectionRequest2.mk 1492 77))
    as (_ & _ & Htable & Hqueue).
  - vm_compute. reflexivity.
  - reflexivity.
  - vm_compute. reflexivity.
  - vm_compute. reflexivity.
  - vm_compute. reflexivity.
  - reflexivity.
  - split; [exact Htable | exact Hqueue].
Defined.

(** The same Request2 when the socket cannot write. *)
Lemma request2_reply_not_written_witness :
  (handle (env := RakNet.write_fails) (Listen 42) RakNet.request2 RakNet.client).2
  = Returns (Some "error sending open connection reply 2"%string)
  ∧ connections
      (handle (env := RakNet.write_fails) (Listen 42) RakNet.request2 RakNet.client).1
    = ∅.
Proof.
  destruct (request2_reply_not_written (env := RakNet.write_fails) (Listen 42)
              (RakNet.magic_bytes ++ [x04; x7f; x00; x00; x01; x4a; xbc]
                 ++ BigEndian_put 2 1492 ++ BigEndian_put 8 77)
              (RakNet.magic_bytes ++ BigEndian_put 8 42
                 ++ (x04 :: IP RakNet.client ++ BigEndian_put 2 19132)
                 ++ BigEndian_put 2 1492 ++ [x00])
              RakNet.client (openConnectionRequest2.mk 1492 77)
              "network is unreachable")
    as (Hr & Htable & _).
  - vm_compute. reflexivity.
  - vm_compute. reflexivity.
  - vm_compute. reflexivity.
  - reflexivity.
  - split; [exact (f_equal snd Hr) | exact Htable].
Defined.

(** A Request2 to a listener whose queue is full. *)
Lemma request2_on_full_queue_blocks_witness :
  len (buf (incoming RakNet.full_queue)) = 128
  ∧ (handle RakNet.full_queue RakNet.request2 RakNet.client).2 = Blocks
  ∧ connections (handle RakNet.full_queue RakNet.request2 RakNet.client).1
      !! UDPAddr_String RakNet.client
    = Some RakNet.client_session.
Proof.
  pose proof (request2_on_full_queue_blocks RakNet.full_queue
                (RakNet.magic_bytes ++ [x04; x7f; x00; x00; x01; x4a; xbc]
                   ++ BigEndian_put 2 1492 ++ BigEndian_put 8 77)
                (RakNet.magic_bytes ++ BigEndian_put 8 42
                   ++ (x04 :: IP RakNet.client ++ BigEndian_put 2 19132)
                   ++ BigEndian_put 2 1492 ++ [x00])
                RakNet.client (openConnectionRequest2.mk 1492 77)) as H.
  assert (Hh : handle RakNet.full_queue RakNet.request2 RakNet.client
               = (set_connections
                    (<[UDPAddr_String RakNet.client := RakNet.client_session]>
                       (connections RakNet.full_queue))
                    (emit (EvWriteTo
                             (x08 :: RakNet.magic_bytes ++ BigEndian_put 8 42
                                ++ (x04 :: IP RakNet.client ++ BigEndian_put 2 19132)
                                ++ BigEndian_put 2 1492 ++ [x00])
                             RakNet.client)
                       RakNet.full_queue),
                  Blocks)).
  { apply H.
    - vm_compute. reflexivity.
    - vm_compute. reflexivity.
    - vm_compute. discriminate.
    - vm_compute. reflexivity.
    - vm_compute. reflexivity.
    - reflexivity. }
  split; [vm_compute; reflexivity |].
  rewrite Hh. split; [reflexivity |]. apply lookup_insert_eq.
Defined.

(** The first of two candidates times out and the second completes. *)
Lemma Accept_delivers_in_order_witness :
  ∃ pre : list Conn,
    pre = [RakNet.client_session]
    ∧ trace (Accept RakNet.two_sessions
               [mkSelectEnv false false false; mkSelectEnv false true false]).1
      = trace RakNet.two_sessions ++ (EvConnClose <$> pre).
Proof.
  destruct (Accept_delivers_in_order RakNet.two_sessions
              [mkSelectEnv false false false; mkSelectEnv false true false]
              RakNet.client2_session)
    as (pre & Hbuf & Htrace & _).
  - vm_compute. reflexivity.
  - exists pre. split; [| exact Htrace].
    vm_compute in Hbuf.
    destruct pre as [| c [| c' pre]]; [discriminate Hbuf | | ].
    + injection Hbuf as <-. reflexivity.
    + destruct pre; discriminate Hbuf.
Defined.

(** The session of the second client is returned and then ends. *)
Lemma accepted_session_is_unregistered_witness :
  connections
    (connClosed RakNet.client2_session
       (Accept RakNet.two_sessions
          [mkSelectEnv false false false; mkSelectEnv false true false]).1)
    !! UDPAddr_String RakNet.client2
  = None.
Proof.
  destruct (accepted_session_is_unregistered RakNet.two_sessions
              [mkSelectEnv false false false; mkSelectEnv false true false]
              RakNet.client2_session)
    as (H & _).
  - vm_compute. reflexivity.
  - exact H.
Defined.

(** [Accept] on a listener that has been closed and has one candidate. *)
Lemma Accept_after_cancel_witness :
  trace (Accept (Close RakNet.one_session).1 [mkSelectEnv false false false]).1
  = trace (Close RakNet.one_session).1
  ∧ (Accept (Close RakNet.one_session).1 [mkSelectEnv false false false]).2
    = Returns (None, Some errListenerClosed).
Proof.
  destruct (Accept_after_cancel (Close RakNet.one_session).1
              [mkSelectEnv false false false])
    as (Htrace & _ & Hr).
  - vm_compute. reflexivity.
  - split; [exact Htrace |].
    exact (Hr RakNet.client_session [] (mkSelectEnv false false false) []
              eq_refl eq_refl).
Defined.

(** A Request1 from the client whose candidate has timed out. *)
Lemma timed_out_address_stays_forwarded_witness :
  (handle (Accept RakNet.two_sessions [mkSelectEnv false false false]).1
     (RakNet.request1 x09) RakNet.client).1
  = emit (EvConnReceive RakNet.client_session (RakNet.request1 x09))
      (Accept RakNet.two_sessions [mkSelectEnv false false false]).1.
Proof.
  destruct (timed_out_address_stays_forwarded RakNet.two_sessions
              RakNet.client_session [RakNet.client2_session]
              (mkSelectEnv false false false) [] (RakNet.request1 x09))
    as (_ & H).
  - vm_compute. reflexivity.
  - reflexivity.
  - reflexivity.
  - reflexivity.
  - vm_compute. reflexivity.
  - change (addr RakNet.client_session) with RakNet.client in H.
    rewrite H. reflexivity.
Defined.

(** [Close] and [Accept] on a fresh listener, before and after the read
    loop has seen the socket closed. *)
Lemma Close_wakes_Accept_through_read_loop_witness :
  (Accept (Close (Listen 42)).1 []).2 = Blocks
  ∧ (Accept (listen_round (Close (Listen 42)).1 None).1 []).2
    = Returns (None, Some errListenerClosed).
Proof.
  destruct (Close_wakes_Accept_through_read_loop (Listen 42) [])
    as (_ & _ & H1 & H2).
  - reflexivity.
  - reflexivity.
  - split; [exact H1 | exact H2].
Defined.

(** A round of the read loop on an empty datagram. *)
Lemma listen_round_goes_on_witness :
  (listen_round (Listen 42) (Some ([], RakNet.client))).2 = Returns true
  ∧ closed (incoming (listen_round (Listen 42) (Some ([], RakNet.client))).1) = false.
Proof.
  destruct (listen_round_goes_on (Listen 42) [] RakNet.client) as ([H | [H _]] & Hopen).
  - reflexivity.
  - split; [exact H | exact Hopen].
  - vm_compute in H. discriminate H.
Defined.

(** A Request1 of 2018 bytes is answered with an MTU of 1528. *)
Lemma listen_round_request1_mtu_witness :
  len RakNet.long_request1 = 2018
  ∧ listen_round (Listen 42) (Some (RakNet.long_request1, RakNet.client))
    = (emit (EvWriteTo
               (x06 :: RakNet.put_openConnectionReply1
                         (openConnectionReply1.mk RakNet.magic_bytes 42 1528))
               RakNet.client)
            (Listen 42),
       Returns true).
Proof.
  destruct (listen_round_request1_mtu (Listen 42)
              (RakNet.magic_bytes ++ [x09] ++ replicate 2000 x00)
              RakNet.client (openConnectionRequest1.mk x09))
    as (H & _).
  - vm_compute. reflexivity.
  - vm_compute. reflexivity.
  - reflexivity.
  - vm_compute. reflexivity.
  - split; [vm_compute; reflexivity |]. exact H.
Defined.

(** A Ping to a listener after [PongData] has set the payload [hello]. *)
Lemma run_pong_length_field_witness :
  trace (handle (run (Listen 42) [opPongData (bytes_of "hello")])
           (RakNet.ping 1234) RakNet.client).1
  = [EvWriteTo
       (x1c :: RakNet.put_unconnectedPong (unconnectedPong.mk RakNet.magic_bytes 42 1234)
            ++ [x00; x05] ++ bytes_of "hello")
       RakNet.client]
  ∧ BigEndian_uint [x00; x05] = 5.
Proof.
  destruct (run_pong_length_field 42 [opPongData (bytes_of "hello")]
              (BigEndian_put 8 1234) RakNet.client (unconnectedPing.mk 1234))
    as (_ & Htrace & Hfield).
  - vm_compute. reflexivity.
  - vm_compute. reflexivity.
  - split; [exact Htrace | exact Hfield].
Defined.

(** A listener with ID 43 hijacks the listener with ID 42 that hijacks
    the upstream server. *)
Lemma HijackPong_chain_witness :
  HijackPong_tick (Listen 43)
    (λ _, Some (mkSlice (pongData (HijackPong_tick (Listen 42)
                                     (λ _, Some RakNet.upstream)).1) []))
  = (set_pongData (bytes_of "MCPE;Dedicated Server;390;1.14.60;0;10;43;Proxy;")
       (Listen 43),
     Returns tt).
Proof.
  destruct (HijackPong_chain (Listen 42) (Listen 43) (λ _, Some RakNet.upstream)
              RakNet.upstream)
    as (_ & H).
  - reflexivity.
  - vm_compute. reflexivity.
  - vm_compute. discriminate.
  - rewrite H. vm_compute. reflexivity.
Defined.

(** A payload of 32768 bytes without the marker. *)
Lemma HijackPong_oversized_payload_panics_witness :
  ∃ msg : string,
    HijackPong_loop (Listen 42)
      [tickerC (λ _, Some (mkSlice (replicate (Z.to_nat 32768) "x"%byte) []));
       tickerC (λ _, Some RakNet.upstream)]
    = (Listen 42, Panics msg).
Proof.
  destruct (HijackPong_oversized_payload_panics (Listen 42)
              (λ _, Some (mkSlice (replicate (Z.to_nat 32768) "x"%byte) []))
              (mkSlice (replicate (Z.to_nat 32768) "x"%byte) [])
              [tickerC (λ _, Some RakNet.upstream)])
    as (msg & _ & H).
  - reflexivity.
  - vm_compute. discriminate.
  - unfold len. cbn [elems]. rewrite length_replicate. vm_compute. reflexivity.
  - exists msg. exact H.
Defined.

(** Field 7 of the payload stored for the upstream server reads 42. *)
Lemma HijackPong_ID_field_reads_back_witness :
  ∃ field : list byte,
    bytes_Split (pongData (HijackPong_tick (Listen 42) (λ _, Some RakNet.upstream)).1)
      ";"%byte !! 6%nat = Some field
    ∧ decimal_value field = 42.
Proof.
  apply (HijackPong_ID_field_reads_back (Listen 42) (λ _, Some RakNet.upstream)
           RakNet.upstream).
  - reflexivity.
  - vm_compute. reflexivity.
  - vm_compute. discriminate.
  - vm_compute. split; [discriminate | reflexivity].
Defined.

(** A clock at 1700000000.123456789 seconds after the epoch. *)
Lemma timestamp_is_in_seconds_witness :
  timestamp 1700000000123456789 = 1700000000.
Proof.
  destruct (timestamp_is_in_seconds 1700000000123456789) as (_ & H).
  - vm_compute. discriminate.
  - rewrite H. reflexivity.
Defined.

End Runs.
